(** * The PPO training step of rl4co (rl4co/models/rl/ppo/ppo.py)

    A shallow embedding of [PPO.__init__] and [PPO.shared_step].

    - Python [float] hyperparameters that only steer the control flow
      ([mini_batch_size]) are rationals: every finite float is one, and
      [int(batch_size * fraction)] is truncation toward zero.
    - Tensor entries are elements of a [Scalar] interface with two
      instances: the real numbers (the value computed) and dual numbers
      (the value together with its derivative along one parameter
      direction, which is what [detach] and [torch.no_grad] act on).
    - The policy, the critic, the environment, the optimizer and the
      random sampler of the [DataLoader] are collaborators: they are
      parameters of the step. *)

From Stdlib Require Import Reals Lra Lia QArith ZArith List String Permutation.
From stdpp Require Import gmap strings list fin_maps.

(* ===================================================================== *)
(** * Python values and exceptions *)
(* ===================================================================== *)

(** The exceptions the step can raise. *)
Inductive exn : Type :=
| ValueError (msg : string)
| UnboundLocalError (var : string).

(** What a caller can pass as [mini_batch_size: Union[int, float]]: the
    annotation is not enforced, so a third case stands for every value
    that is neither an [int] nor a [float]. A [float] is given by its
    rational value; the infinities and nan are left out. *)
Inductive py_num : Type :=
| PyInt (n : Z)
| PyFloat (q : Q)
| PyOther.

(** [int(x)] on a float: truncation toward zero. *)
Definition py_int (x : Q) : Z := Z.quot (Qnum x) (Z.pos (Qden x)).

(** [n * x] for an [int] n and a [float] x. *)
Definition py_int_times_float (n : Z) (x : Q) : Q := Qmult (inject_Z n) x.

(* ===================================================================== *)
(** * PPO.__init__: the configuration *)
(* ===================================================================== *)

(** [self.ppo_cfg] *)
Record ppo_cfg : Type := mk_ppo_cfg {
  clip_range : R;
  ppo_epochs : Z;
  mini_batch_size : py_num;
  vf_lambda : R;
  entropy_lambda : R;
  normalize_adv : bool;
  max_grad_norm : option R
}.

(** [log.warning(f"... got {mini_batch_size}. Setting mini_batch_size to {default}.")] *)
Inductive log_record : Type :=
| Warning (got set_to : py_num).

Definition default_mini_batch_fraction : Q := 1 # 4.
Definition default_mini_batch_size : Z := 128.

(** [isinstance(mini_batch_size, float) and (mini_batch_size <= 0 or mini_batch_size > 1)] *)
Definition float_out_of_range (m : py_num) : bool :=
  match m with
  | PyFloat q => Qle_bool q 0 || negb (Qle_bool q 1)
  | _ => false
  end.

(** [isinstance(mini_batch_size, int) and (mini_batch_size <= 0)] *)
Definition int_out_of_range (m : py_num) : bool :=
  match m with
  | PyInt n => (n <=? 0)%Z
  | _ => false
  end.

(** The two checks of the constructor, in the order of the source; the
    second one sees the value the first one left. *)
Definition check_mini_batch_size (m : py_num) : py_num * list log_record :=
  let '(m1, w1) :=
    if float_out_of_range m
    then (PyFloat default_mini_batch_fraction,
          [Warning m (PyFloat default_mini_batch_fraction)])
    else (m, []) in
  let '(m2, w2) :=
    if int_out_of_range m1
    then (PyInt default_mini_batch_size,
          [Warning m1 (PyInt default_mini_batch_size)])
    else (m1, []) in
  (m2, w1 ++ w2).

(** [PPO.__init__], restricted to what ends up in [self.ppo_cfg]; the
    second component is the list of warnings logged. *)
Definition PPO_init (clip : R) (epochs : Z) (mbs : py_num) (vf ent : R)
    (norm : bool) (max_norm : option R) : ppo_cfg * list log_record :=
  let '(m, w) := check_mini_batch_size mbs in
  (mk_ppo_cfg clip epochs m vf ent norm max_norm, w).

(* ===================================================================== *)
(** * shared_step: the minibatch size and the DataLoader *)
(* ===================================================================== *)

(** Lines 139-148: "infer batch size", then the clamp to [batch_size]. *)
Definition infer_mini_batch_size (cfg : ppo_cfg) (batch_size : Z) : exn + Z :=
  match mini_batch_size cfg with
  | PyFloat q => inr (py_int (py_int_times_float batch_size q))
  | PyInt n => inr n
  | PyOther => inl (ValueError "mini_batch_size must be an integer or a float.")
  end.

Definition clamp_mini_batch_size (mbs batch_size : Z) : Z :=
  if (mbs >? batch_size)%Z then batch_size else mbs.

Definition effective_mini_batch_size (cfg : ppo_cfg) (batch_size : Z) : exn + Z :=
  match infer_mini_batch_size cfg batch_size with
  | inl e => inl e
  | inr m => inr (clamp_mini_batch_size m batch_size)
  end.

(** [torch.utils.data.DataLoader(dataset, batch_size=..., shuffle=True)]
    over a dataset of [dl_len] rows. Its [BatchSampler] refuses a batch
    size that is not a positive integer. *)
Record DataLoader : Type := mk_DataLoader {
  dl_len : nat;
  dl_batch_size : nat
}.

Definition DataLoader_init (len : nat) (batch_size : Z) : exn + DataLoader :=
  if (batch_size <=? 0)%Z
  then inl (ValueError "batch_size should be a positive integer value")
  else inr (mk_DataLoader len (Z.to_nat batch_size)).

(** [BatchSampler.__iter__] with [drop_last=False]: indices are appended to
    the current batch, which is yielded when it reaches [b], and a last
    shorter batch is yielded when it is not empty. [cur] is the current
    batch, newest index first. *)
Fixpoint batch_sampler (b : nat) (cur : list nat) (idxs : list nat)
    : list (list nat) :=
  match idxs with
  | [] => match cur with [] => [] | _ => [rev cur] end
  | i :: rest =>
      let cur' := i :: cur in
      if (length cur' =? b)%nat
      then rev cur' :: batch_sampler b [] rest
      else batch_sampler b cur' rest
  end.

(** One pass [for sub_td in dataloader]: the index batches, given the
    order [perm] that the random sampler drew for this pass. *)
Definition DataLoader_iter (dl : DataLoader) (perm : list nat) : list (list nat) :=
  batch_sampler (dl_batch_size dl) [] perm.

(* ===================================================================== *)
(** * Tensor entries *)
(* ===================================================================== *)

(** The operations [shared_step] applies to tensor entries. [sc_const]
    embeds a Python float, [sc_val] reads the value of an entry, and
    [sc_clamp x lo hi] is [torch.clamp] with Python float bounds. *)
Class Scalar (T : Type) : Type := {
  sc_const : R -> T;
  sc_val : T -> R;
  sc_add : T -> T -> T;
  sc_sub : T -> T -> T;
  sc_mul : T -> T -> T;
  sc_div : T -> T -> T;
  sc_neg : T -> T;
  sc_exp : T -> T;
  sc_sqrt : T -> T;
  sc_abs : T -> T;
  sc_min : T -> T -> T;
  sc_clamp : T -> R -> R -> T;
  sc_detach : T -> T
}.

(** [torch.clamp(x, lo, hi)] is [min(max(x, lo), hi)]: when [lo > hi] every
    entry becomes [hi]. *)
Definition Rclamp (x lo hi : R) : R := Rmin (Rmax x lo) hi.

(** Values only: [detach] changes nothing. *)
#[export] Instance R_Scalar : Scalar R := {|
  sc_const := fun x => x;
  sc_val := fun x => x;
  sc_add := Rplus;
  sc_sub := Rminus;
  sc_mul := Rmult;
  sc_div := Rdiv;
  sc_neg := Ropp;
  sc_exp := exp;
  sc_sqrt := sqrt;
  sc_abs := Rabs;
  sc_min := Rmin;
  sc_clamp := Rclamp;
  sc_detach := fun x => x
|}.

(** A value with its derivative along one direction of the parameter
    space (forward-mode view of autograd). *)
Record dual : Type := mk_dual { d_val : R; d_tan : R }.

Definition Rsign (x : R) : R :=
  if Rlt_dec 0 x then 1%R else if Rlt_dec x 0 then (-1)%R else 0%R.

(** The derivative of [torch.min(a, b)] follows the smaller operand and is
    shared evenly at a tie; that of [torch.clamp] passes inside the bounds
    (bounds included) and is zero outside. *)
Definition dual_min (a b : dual) : dual :=
  mk_dual (Rmin (d_val a) (d_val b))
    (if Rlt_dec (d_val a) (d_val b) then d_tan a
     else if Rlt_dec (d_val b) (d_val a) then d_tan b
     else ((d_tan a + d_tan b) / 2)%R).

Definition dual_clamp (a : dual) (lo hi : R) : dual :=
  mk_dual (Rclamp (d_val a) lo hi)
    (if Rle_dec lo (d_val a)
     then if Rle_dec (d_val a) hi then d_tan a else 0%R
     else 0%R).

#[export] Instance dual_Scalar : Scalar dual := {|
  sc_const := fun x => mk_dual x 0;
  sc_val := d_val;
  sc_add := fun a b => mk_dual (d_val a + d_val b) (d_tan a + d_tan b);
  sc_sub := fun a b => mk_dual (d_val a - d_val b) (d_tan a - d_tan b);
  sc_mul := fun a b =>
    mk_dual (d_val a * d_val b) (d_tan a * d_val b + d_val a * d_tan b);
  sc_div := fun a b =>
    mk_dual (d_val a / d_val b)
      ((d_tan a * d_val b - d_val a * d_tan b) / (d_val b * d_val b));
  sc_neg := fun a => mk_dual (- d_val a) (- d_tan a);
  sc_exp := fun a => mk_dual (exp (d_val a)) (exp (d_val a) * d_tan a);
  sc_sqrt := fun a => mk_dual (sqrt (d_val a)) (d_tan a / (2 * sqrt (d_val a)));
  sc_abs := fun a => mk_dual (Rabs (d_val a)) (Rsign (d_val a) * d_tan a);
  sc_min := dual_min;
  sc_clamp := dual_clamp;
  sc_detach := fun a => mk_dual (d_val a) 0
|}.

(* ===================================================================== *)
(** * Tensors of shape [batch] or [batch, 1], and the loss *)
(* ===================================================================== *)

Section Loss.
Context {T : Type} `{Scalar T}.

(** Elementwise binary operation on two tensors of the same shape. *)
Definition t_map2 (f : T -> T -> T) (a b : list T) : list T := zip_with f a b.

Definition t_sum (a : list T) : T := foldr sc_add (sc_const 0) a.

(** [a.mean()]. On an empty tensor torch yields nan, where the division by
    0 of the reals yields 0; no minibatch is empty ([batch_sampler_sizes]). *)
Definition t_mean (a : list T) : T :=
  sc_div (t_sum a) (sc_const (INR (length a))).

(** [a.std()]: the sample standard deviation (Bessel's correction, the
    default of [torch.std]). On a single entry torch yields nan; what is
    proved about it below is stated for two entries or more. *)
Definition t_std (a : list T) : T :=
  let m := t_mean a in
  sc_sqrt (sc_div (t_sum (map (fun x => sc_mul (sc_sub x m) (sc_sub x m)) a))
                  (sc_const (INR (length a) - 1))).

(** Line 178: [torch.exp(ll.sum(dim=-1) - sub_td["logprobs"]).view(-1, 1)] *)
Definition ratio (ll : list (list T)) (logprobs : list T) : list T :=
  map sc_exp (t_map2 sc_sub (map t_sum ll) logprobs).

(** The literal [1e-8] of line 188. *)
Definition adv_eps : R := (1 / 100000000)%R.

(** Line 188: [(adv - adv.mean()) / (adv.std() + 1e-8)] *)
Definition normalize (adv : list T) : list T :=
  let m := t_mean adv in
  let s := sc_add (t_std adv) (sc_const adv_eps) in
  map (fun a => sc_div (sc_sub a m) s) adv.

(** Lines 184-188 *)
Definition advantage (cfg : ppo_cfg) (previous_reward value_pred : list T)
    : list T :=
  let adv := t_map2 sc_sub previous_reward (map sc_detach value_pred) in
  if normalize_adv cfg then normalize adv else adv.

(** Lines 191-199 *)
Definition surrogate_loss (cfg : ppo_cfg) (ratio adv : list T) : T :=
  sc_neg
    (t_mean
       (t_map2 sc_min
          (t_map2 sc_mul ratio adv)
          (t_map2 sc_mul
             (map (fun r => sc_clamp r (1 - clip_range cfg) (1 + clip_range cfg))
                  ratio)
             adv))).

(** One entry of [F.huber_loss] with its default [delta = 1.0]. *)
Definition huber_entry (input target : T) : T :=
  let d := sc_sub input target in
  if Rle_dec (sc_val (sc_abs d)) 1
  then sc_mul (sc_const (1 / 2)) (sc_mul d d)
  else sc_mul (sc_const 1) (sc_sub (sc_abs d) (sc_mul (sc_const (1 / 2)) (sc_const 1))).

(** [F.huber_loss(input, target)] with its default [reduction="mean"]. *)
Definition huber_loss (input target : list T) : T :=
  t_mean (t_map2 huber_entry input target).

(** Lines 205-209 *)
Definition total_loss (cfg : ppo_cfg) (surrogate value_loss entropy_mean : T) : T :=
  sc_sub
    (sc_add surrogate (sc_mul (sc_const (vf_lambda cfg)) value_loss))
    (sc_mul (sc_const (entropy_lambda cfg)) entropy_mean).

(** The four locals that out.update reads after the loops. *)
Record losses : Type := mk_losses {
  l_loss : T;
  l_surrogate_loss : T;
  l_value_loss : T;
  l_entropy : T
}.

End Loss.
Arguments losses T : clear implicits.

(* ===================================================================== *)
(** * The formulas of the specification, instance by instance *)
(* ===================================================================== *)

(** The sum of [f 0], ..., [f (n - 1)]. *)
Definition Rsum (n : nat) (f : nat -> R) : R :=
  foldr Rplus 0%R (map f (seq 0 n)).

(** [ratio = exp(new_log_prob - old_log_prob)] *)
Definition spec_ratio (new_log_prob old_log_prob : R) : R :=
  exp (new_log_prob - old_log_prob).

(** [min(ratio * advantage, clip(ratio, 1 - clip_range, 1 + clip_range) * advantage)] *)
Definition spec_surrogate_term (clip r a : R) : R :=
  Rmin (r * a) (Rclamp r (1 - clip) (1 + clip) * a).

(** The negated mean of the surrogate terms of the [n] instances of a
    minibatch; instance [i] has the new log-probability [new_log_prob i],
    the stored one [old_log_prob i] and the advantage [adv i]. *)
Definition spec_surrogate_loss (clip : R) (n : nat)
    (new_log_prob old_log_prob adv : nat -> R) : R :=
  (- (Rsum n (fun i =>
               spec_surrogate_term clip
                 (spec_ratio (new_log_prob i) (old_log_prob i)) (adv i))
      / INR n))%R.


(* ===================================================================== *)
(** * shared_step *)
(* ===================================================================== *)

Section Step.
Context {T : Type} `{Scalar T}.

(** [St]: one row of the environment state; [Act]: the action sequence of
    one instance; [Batch]: what the trainer hands over as a batch;
    [Params]: the parameters of the policy and of the critic, which the
    optimizer owns. *)
Context {St Act Batch Params : Type}.

(** What the policy returns when it decodes ([return_actions=True]): one
    reward, one summed log-likelihood and one action sequence per instance. *)
Record policy_out : Type := mk_policy_out {
  po_reward : list T;
  po_log_likelihood : list T;
  po_actions : list Act
}.

(** What the policy returns when it scores given actions
    ([return_entropy=True], [return_sum_log_likelihood=False]): the reward of
    these actions, the log-likelihood of every decoding step and the entropy. *)
Record eval_out : Type := mk_eval_out {
  eo_reward : list T;
  eo_log_likelihood : list (list T);
  eo_entropy : list T
}.

(** [td] after the three [td.set] of lines 151-153: a dictionary of tensors
    that share the batch dimension. *)
Record tensordict : Type := mk_tensordict {
  td_state : list St;
  td_logprobs : list T;
  td_reward : list T;
  td_action : list Act
}.

(** The values the Python dictionary [out] holds. *)
Inductive value : Type :=
| VNone
| VScalar (x : T)
| VTensor (x : list T)
| VTensor2 (x : list (list T))
| VActions (a : list Act).

(** The collaborators. *)
Record collaborators : Type := mk_collaborators {
  env_reset : Batch -> list St;
  policy_decode : Params -> string -> list St -> policy_out;
  policy_score : Params -> tensordict -> eval_out;
  critic : Params -> tensordict -> list T;
  (** [opt.zero_grad(); manual_backward(loss); clip_gradients(...); opt.step()] *)
  optimizer_step : option R -> Params -> T -> Params;
  (** [self.train_metrics], [self.val_metrics], ...: the names to log in a phase *)
  metric_names : string -> list string
}.

Variable C : collaborators.
Variable cfg : ppo_cfg.

(** [with torch.no_grad()]: what is computed inside carries no gradient. *)
Definition no_grad (o : policy_out) : policy_out :=
  mk_policy_out (map sc_detach (po_reward o))
                (map sc_detach (po_log_likelihood o))
                (po_actions o).

Definition dict_of_policy_out (o : policy_out) : gmap string value :=
  <["reward" := VTensor (po_reward o)]>
    (<["log_likelihood" := VTensor (po_log_likelihood o)]>
       (<["actions" := VActions (po_actions o)]> ∅)).

Definition dict_of_eval_out (o : eval_out) : gmap string value :=
  <["reward" := VTensor (eo_reward o)]>
    (<["log_likelihood" := VTensor2 (eo_log_likelihood o)]>
       (<["entropy" := VTensor (eo_entropy o)]> ∅)).

(** The rows [idxs] of one column: what the dataset and its [collate_fn]
    make of a batch of indices. *)
Definition gather {A : Type} (col : list A) (idxs : list nat) : list A :=
  omap (fun i => col !! i) idxs.

Definition collate (td : tensordict) (idxs : list nat) : tensordict :=
  mk_tensordict (gather (td_state td) idxs) (gather (td_logprobs td) idxs)
                (gather (td_reward td) idxs) (gather (td_action td) idxs).

(** Lines 167-209: the losses of one minibatch, from the output of the
    policy and of the critic on it. *)
Definition minibatch_losses (sub_td : tensordict) (out : eval_out)
    (value_pred : list T) : losses T :=
  let previous_reward := td_reward sub_td in
  let ll := eo_log_likelihood out in
  let entropy := eo_entropy out in
  let ratio := ratio ll (td_logprobs sub_td) in
  let adv := advantage cfg previous_reward value_pred in
  let surrogate_loss := surrogate_loss cfg ratio adv in
  let value_loss := huber_loss value_pred previous_reward in
  let loss := total_loss cfg surrogate_loss value_loss (t_mean entropy) in
  mk_losses loss surrogate_loss value_loss (t_mean entropy).

(** What the loops leave behind: the parameters, and the locals [out],
    [loss], [surrogate_loss], [value_loss] and [entropy] of the last
    iteration (unbound as long as the body has not run). *)
Definition loop_state : Type := (Params * option (eval_out * losses T))%type.

(** The body of the inner loop, lines 166-223. *)
Definition minibatch_step (td : tensordict) (s : loop_state) (idxs : list nat)
    : loop_state :=
  let theta := fst s in
  let sub_td := collate td idxs in
  let out := policy_score C theta sub_td in
  let value_pred := critic C theta sub_td in
  let ls := minibatch_losses sub_td out value_pred in
  (optimizer_step C (max_grad_norm cfg) theta (l_loss ls), Some (out, ls)).

(** [for sub_td in dataloader]: the [k]-th pass draws the order [perms k]. *)
Definition inner_epoch (td : tensordict) (dl : DataLoader) (perms : nat -> list nat)
    (s : loop_state) (k : nat) : loop_state :=
  fold_left (minibatch_step td) (DataLoader_iter dl (perms k)) s.

(** [for _ in range(self.ppo_cfg["ppo_epochs"])] *)
Definition inner_loop (td : tensordict) (dl : DataLoader) (perms : nat -> list nat)
    (theta : Params) : loop_state :=
  fold_left (inner_epoch td dl perms) (seq 0 (Z.to_nat (ppo_epochs cfg)))
            (theta, None).

(** Modelled from the spec: [RL4COLitModule.log_metrics] of
    rl4co/models/rl/common/base.py is missing. It reports, under the name
    of the phase, the entries of [out] whose names are to be logged in this
    phase, a tensor by its mean. *)
Definition metric_of (v : value) : value :=
  match v with
  | VTensor x => VScalar (t_mean x)
  | VTensor2 x => VScalar (t_mean (concat x))
  | _ => v
  end.

Definition log_metrics (out : gmap string value) (phase : string)
    : gmap string value :=
  foldr (fun k acc =>
           match out !! k with
           | Some v => <[(phase +:+ "/" +:+ k) := metric_of v]> acc
           | None => acc
           end)
        ∅ (metric_names C phase).

(** Lines 225-232 *)
Definition update_out (out : gmap string value) (ls : losses T)
    : gmap string value :=
  <["entropy" := VScalar (l_entropy ls)]>
    (<["value_loss" := VScalar (l_value_loss ls)]>
       (<["surrogate_loss" := VScalar (l_surrogate_loss ls)]>
          (<["loss" := VScalar (l_loss ls)]> out))).

(** Line 235: [{"loss": out.get("loss", None), **metrics}] *)
Definition step_result (out : gmap string value) (metrics : gmap string value)
    : gmap string value :=
  metrics ∪ {["loss" := default VNone (out !! "loss")]}.

(** [PPO.shared_step]. [theta] is the state of the parameters before the
    step and [perms] the orders the random sampler draws; the result is an
    exception, or the parameters after the step with the dictionary
    returned. *)
Definition shared_step (theta : Params) (perms : nat -> list nat)
    (batch : Batch) (phase : string) : exn + (Params * gmap string value) :=
  let td := env_reset C batch in
  let out := no_grad (policy_decode C theta phase td) in
  if String.eqb phase "train" then
    let batch_size := length (po_actions out) in
    match effective_mini_batch_size cfg (Z.of_nat batch_size) with
    | inl e => inl e
    | inr mbs =>
        let td' := mk_tensordict td (po_log_likelihood out) (po_reward out)
                                 (po_actions out) in
        match DataLoader_init (length td) mbs with
        | inl e => inl e
        | inr dataloader =>
            match inner_loop td' dataloader perms theta with
            | (_, None) => inl (UnboundLocalError "loss")
            | (theta', Some (out', ls)) =>
                let out'' := update_out (dict_of_eval_out out') ls in
                inr (theta', step_result out'' (log_metrics out'' phase))
            end
        end
    end
  else
    let out' := dict_of_policy_out out in
    inr (theta, step_result out' (log_metrics out' phase)).

End Step.
Arguments policy_out : clear implicits.
Arguments eval_out : clear implicits.
Arguments tensordict : clear implicits.
Arguments value : clear implicits.
Arguments collaborators : clear implicits.
Arguments loop_state : clear implicits.

(** The default [metrics] argument of the constructor, lines 74-76, and
    what the base class logs in the other phases. *)
Definition default_train_metrics : list string :=
  ["reward"; "loss"; "surrogate_loss"; "value_loss"; "entropy"].

Definition default_metric_names (phase : string) : list string :=
  if String.eqb phase "train" then default_train_metrics else ["reward"].

(** The default hyperparameters of the constructor, lines 67-73. *)
Definition default_cfg : ppo_cfg :=
  fst (PPO_init (1 / 5) 2 (PyFloat (1 # 4)) (1 / 2) 0 false (Some (1 / 2)%R)).

(* ===================================================================== *)
(** * PPO.on_train_epoch_end *)
(* ===================================================================== *)

(** What [self.lr_schedulers()] returns: a [torch.optim.lr_scheduler.MultiStepLR],
    a scheduler of another class, or nothing. [S] is the state of a
    scheduler. *)
Inductive lr_scheduler (S : Type) : Type :=
| MultiStepLR (s : S)
| OtherScheduler (s : S)
| NoScheduler.
Arguments MultiStepLR {S} s.
Arguments OtherScheduler {S} s.
Arguments NoScheduler {S}.

(** Lines 117-126; [step] is [sch.step()]. *)
Definition on_train_epoch_end {S : Type} (step : S -> S)
    (sch : lr_scheduler S) : lr_scheduler S :=
  match sch with
  | MultiStepLR s => MultiStepLR (step s)
  | _ => sch
  end.

(* ===================================================================== *)
(** * A small instance of the collaborators *)
(* ===================================================================== *)

(** An environment whose instances are numbers, each the reward of its one
    solution; a policy that has this one solution with log-likelihood 0 and
    entropy 0; a critic that predicts 0; and parameters that count the
    optimizer steps taken. *)
Definition count_collaborators : collaborators R R nat (list R) nat :=
  mk_collaborators
    (fun batch => batch)
    (fun _ _ td => mk_policy_out td (map (fun _ => 0%R) td) (map (fun _ => 0) td))
    (fun _ sub_td =>
       mk_eval_out (td_reward sub_td)
                   (map (fun lp => [lp]) (td_logprobs sub_td))
                   (map (fun _ => 0%R) (td_state sub_td)))
    (fun _ sub_td => map (fun _ => 0%R) (td_state sub_td))
    (fun _ theta _ => S theta)
    default_metric_names.

(** One pass over minibatches of one instance. *)
Definition one_by_one_cfg : ppo_cfg :=
  mk_ppo_cfg (1 / 5) 1 (PyInt 1) (1 / 2) 0 false (Some (1 / 2)%R).


(** A minibatch of two instances of the small environment, with the output
    of the scoring pass on it. *)
Definition two_rows : tensordict R R nat :=
  mk_tensordict [1%R; 3%R] [0%R; 0%R] [1%R; 3%R] [0; 0].

Definition two_rows_out : eval_out R :=
  mk_eval_out [1%R; 3%R] [[0%R]; [0%R]] [0%R; 0%R].

(** A configuration that standardizes the advantage, one without a pass
    and one with two passes over minibatches of two. *)
Definition normalizing_cfg : ppo_cfg :=
  fst (PPO_init (1 / 5) 2 (PyFloat (1 # 4)) (1 / 2) 0 true (Some (1 / 2)%R)).

Definition no_pass_cfg : ppo_cfg :=
  mk_ppo_cfg (1 / 5) 0 (PyInt 1) (1 / 2) 0 false (Some (1 / 2)%R).

Definition two_by_two_cfg : ppo_cfg :=
  mk_ppo_cfg (1 / 5) 2 (PyInt 2) (1 / 2) 0 false (Some (1 / 2)%R).

(** The minibatch [two_rows] with derivatives: the stored columns and the
    output of the scoring pass are constant along the direction. *)
Definition two_dual_rows : tensordict dual R nat :=
  mk_tensordict [1%R; 3%R] [mk_dual 0 0; mk_dual 0 0]
                [mk_dual 1 0; mk_dual 3 0] [0; 0].

Definition two_dual_rows_out : eval_out dual :=
  mk_eval_out [mk_dual 1 0; mk_dual 3 0] [[mk_dual 0 0]; [mk_dual 0 0]]
              [mk_dual 0 0; mk_dual 0 0].

(* ===================================================================== *)
(** * Properties of the configuration *)
(* ===================================================================== *)

Lemma float_out_of_range_spec (q : Q) :
  float_out_of_range (PyFloat q) = true <-> ~ (0 < q /\ q <= 1)%Q.
Proof.
  unfold float_out_of_range.
  rewrite orb_true_iff, negb_true_iff.
  split.
  - intros [Hle | Hgt] [Hpos Hle1].
    + apply Qle_bool_iff in Hle. apply (Qlt_irrefl q).
      exact (Qle_lt_trans q 0 q Hle Hpos).
    + apply Qle_bool_iff in Hle1. congruence.
  - intros Hout.
    destruct (Qle_bool q 0) eqn:E0; [now left | right].
    destruct (Qle_bool q 1) eqn:E1; [| reflexivity].
    exfalso. apply Hout. split.
    + apply Qnot_le_lt. intros Hle. apply Qle_bool_iff in Hle. congruence.
    + now apply Qle_bool_iff.
Qed.

Lemma float_in_range_kept (q : Q) :
  (0 < q /\ q <= 1)%Q -> check_mini_batch_size (PyFloat q) = (PyFloat q, []).
Proof.
  intros Hin. unfold check_mini_batch_size.
  destruct (float_out_of_range (PyFloat q)) eqn:E.
  - apply float_out_of_range_spec in E. contradiction.
  - reflexivity.
Qed.

Lemma positive_int_kept (n : Z) :
  (0 < n)%Z -> check_mini_batch_size (PyInt n) = (PyInt n, []).
Proof.
  intros Hpos. unfold check_mini_batch_size. simpl.
  destruct (Z.leb_spec n 0); [lia | reflexivity].
Qed.

Lemma check_mini_batch_size_float (q : Q) :
  ~ (0 < q /\ q <= 1)%Q ->
  check_mini_batch_size (PyFloat q)
  = (PyFloat default_mini_batch_fraction,
     [Warning (PyFloat q) (PyFloat default_mini_batch_fraction)]).
Proof.
  intros Hout. apply float_out_of_range_spec in Hout.
  unfold check_mini_batch_size. rewrite Hout. reflexivity.
Qed.

Lemma check_mini_batch_size_int (n : Z) :
  (n <= 0)%Z ->
  check_mini_batch_size (PyInt n)
  = (PyInt default_mini_batch_size,
     [Warning (PyInt n) (PyInt default_mini_batch_size)]).
Proof.
  intros Hle. unfold check_mini_batch_size. simpl.
  destruct (Z.leb_spec n 0); [reflexivity | lia].
Qed.

Lemma check_mini_batch_size_other :
  check_mini_batch_size PyOther = (PyOther, []).
Proof. reflexivity. Qed.



(* ===================================================================== *)
(** * Properties of the minibatch size *)
(* ===================================================================== *)



Lemma clamp_mini_batch_size_le (m batch_size : Z) :
  (clamp_mini_batch_size m batch_size <= batch_size)%Z.
Proof.
  unfold clamp_mini_batch_size.
  destruct (Z.gtb_spec m batch_size); lia.
Qed.

(** The effective size never exceeds the batch size. *)
Lemma effective_mini_batch_size_le (cfg : ppo_cfg) (batch_size m : Z) :
  effective_mini_batch_size cfg batch_size = inr m -> (m <= batch_size)%Z.
Proof.
  unfold effective_mini_batch_size.
  destruct (infer_mini_batch_size cfg batch_size) as [e | m0]; [discriminate |].
  intros [= <-]. apply clamp_mini_batch_size_le.
Qed.



(* ===================================================================== *)
(** * Properties of the batch sampler *)
(* ===================================================================== *)

Lemma batch_sampler_cons (b i : nat) (cur rest : list nat) :
  batch_sampler b cur (i :: rest)
  = if (S (length cur) =? b)%nat
    then rev (i :: cur) :: batch_sampler b [] rest
    else batch_sampler b (i :: cur) rest.
Proof. reflexivity. Qed.

(** The batches, read in order, are the drawn order itself. *)
Lemma batch_sampler_concat (b : nat) (idxs cur : list nat) :
  length cur < b ->
  concat (batch_sampler b cur idxs) = rev cur ++ idxs.
Proof.
  revert cur. induction idxs as [| i rest IH]; intros cur Hcur.
  - destruct cur; simpl; [reflexivity |].
    now rewrite !app_nil_r.
  - rewrite batch_sampler_cons.
    destruct (Nat.eqb_spec (S (length cur)) b) as [Hfull | Hroom].
    + rewrite concat_cons, (IH []) by (simpl; lia). simpl.
      now rewrite <- app_assoc.
    + rewrite IH by (simpl; lia). simpl.
      now rewrite <- app_assoc.
Qed.

(** No batch is empty and none is longer than [b]. *)
Lemma batch_sampler_sizes (b : nat) (idxs cur : list nat) :
  length cur < b ->
  Forall (fun batch => 0 < length batch <= b) (batch_sampler b cur idxs).
Proof.
  revert cur. induction idxs as [| i rest IH]; intros cur Hcur.
  - destruct cur as [| c cur']; constructor; [| constructor].
    rewrite length_rev. simpl in *. lia.
  - rewrite batch_sampler_cons.
    destruct (Nat.eqb_spec (S (length cur)) b) as [Hfull | Hroom].
    + constructor.
      * rewrite length_rev. simpl. lia.
      * apply IH. simpl. lia.
    + apply IH. simpl. lia.
Qed.

(** A batch size equal to the number of indices gives one batch. *)
Lemma batch_sampler_single (b : nat) (idxs cur : list nat) :
  idxs <> [] -> length cur + length idxs = b ->
  batch_sampler b cur idxs = [rev cur ++ idxs].
Proof.
  revert cur. induction idxs as [| i rest IH]; intros cur Hne Hlen.
  - congruence.
  - rewrite batch_sampler_cons.
    destruct (Nat.eqb_spec (S (length cur)) b) as [Hfull | Hroom].
    + simpl in Hlen. destruct rest; [| simpl in Hlen; lia]. reflexivity.
    + destruct rest as [| j rest'].
      * simpl in Hlen. lia.
      * rewrite IH; [| discriminate | simpl in *; lia].
        simpl. now rewrite <- app_assoc.
Qed.

(** One pass over a loader with a positive batch size visits every index of
    the dataset exactly once, whatever order the sampler drew. *)
Lemma DataLoader_iter_partition (dl : DataLoader) (perm : list nat) :
  0 < dl_batch_size dl ->
  Permutation perm (seq 0 (dl_len dl)) ->
  Permutation (concat (DataLoader_iter dl perm)) (seq 0 (dl_len dl))
  /\ NoDup (concat (DataLoader_iter dl perm))
  /\ Forall (fun batch => 0 < length batch <= dl_batch_size dl)
            (DataLoader_iter dl perm).
Proof.
  intros Hpos Hperm. unfold DataLoader_iter.
  rewrite batch_sampler_concat by (simpl; lia). simpl.
  split; [assumption | split].
  - rewrite Hperm. apply NoDup_seq.
  - apply batch_sampler_sizes. simpl. lia.
Qed.

(** With the batch size equal to the size of the dataset, one pass is one
    minibatch. *)
Lemma DataLoader_iter_single (dl : DataLoader) (perm : list nat) :
  0 < dl_len dl -> dl_batch_size dl = dl_len dl ->
  Permutation perm (seq 0 (dl_len dl)) ->
  DataLoader_iter dl perm = [perm].
Proof.
  intros Hpos Hsize Hperm. unfold DataLoader_iter.
  assert (Hlen : length perm = dl_len dl).
  { rewrite (Permutation_length Hperm). apply length_seq. }
  rewrite (batch_sampler_single (dl_batch_size dl) perm []); [reflexivity | |].
  - intros ->. simpl in Hlen. lia.
  - simpl. lia.
Qed.

(** The end-to-end case of the specification: 4 instances in minibatches of
    2 are 2 minibatches per pass. *)
Example DataLoader_iter_4_by_2 :
  DataLoader_iter (mk_DataLoader 4 2) [2; 0; 3; 1] = [[2; 0]; [3; 1]].
Proof. reflexivity. Qed.

Lemma gather_concat {A : Type} (col : list A) (batches : list (list nat)) :
  gather col (concat batches) = concat (map (gather col) batches).
Proof.
  unfold gather. induction batches as [| b batches IH]; [reflexivity |].
  cbn [concat map]. now rewrite omap_app, IH.
Qed.

Lemma gather_cons {A : Type} (col : list A) (i : nat) (idxs : list nat) :
  gather col (i :: idxs)
  = match col !! i with
    | Some x => x :: gather col idxs
    | None => gather col idxs
    end.
Proof. reflexivity. Qed.

Lemma gather_all_from {A : Type} (pre col : list A) :
  gather (pre ++ col) (seq (length pre) (length col)) = col.
Proof.
  revert pre. induction col as [| x col IH]; intros pre.
  - reflexivity.
  - cbn [length seq]. rewrite gather_cons, list_lookup_middle by reflexivity.
    f_equal. specialize (IH (pre ++ [x])).
    rewrite <- app_assoc, length_app in IH. cbn [length app] in IH.
    now rewrite Nat.add_1_r in IH.
Qed.

Lemma gather_all {A : Type} (col : list A) :
  gather col (seq 0 (length col)) = col.
Proof. apply (gather_all_from [] col). Qed.

(** With a positive batch size, the minibatches of one pass hold every row
    of the rollout exactly once: read one after the other, they are the
    rows in the order the sampler drew, a permutation of the column. *)
Lemma minibatches_partition_rows {A : Type} (col : list A) (dl : DataLoader)
    (perm : list nat) :
  0 < dl_batch_size dl ->
  dl_len dl = length col ->
  Permutation perm (seq 0 (dl_len dl)) ->
  concat (map (gather col) (DataLoader_iter dl perm)) = gather col perm
  /\ Permutation (gather col perm) col.
Proof.
  intros Hpos Hlen Hperm. split.
  - rewrite <- gather_concat. unfold DataLoader_iter.
    now rewrite batch_sampler_concat by (simpl; lia).
  - unfold gather. rewrite Hperm, Hlen. fold (gather col (seq 0 (length col))).
    now rewrite gather_all.
Qed.

(** The minibatch size that the loader receives is positive exactly when
    the inferred one is, and it is then at most the batch size. *)
Lemma DataLoader_init_ok (len : nat) (m : Z) :
  (0 < m)%Z -> DataLoader_init len m = inr (mk_DataLoader len (Z.to_nat m)).
Proof.
  intros Hpos. unfold DataLoader_init.
  destruct (Z.leb_spec m 0); [lia | reflexivity].
Qed.

(* ===================================================================== *)
(** * Properties of shared_step: control flow *)
(* ===================================================================== *)

(** No name under which a metric is reported is "loss": it contains a
    slash. *)
Lemma metric_key_not_loss (phase k : string) : phase +:+ "/" +:+ k <> "loss".
Proof.
  destruct phase as [| a [| b [| c [| d [| e rest]]]]];
    cbv [append]; congruence.
Qed.

Section StepControl.
Context {T : Type} `{Scalar T} {St Act Batch Params : Type}.
Variable C : collaborators T St Act Batch Params.

Lemma log_metrics_keys (out : gmap string (value T Act)) (phase key : string) :
  is_Some (log_metrics C out phase !! key) ->
  exists k, key = phase +:+ "/" +:+ k.
Proof.
  unfold log_metrics.
  induction (metric_names C phase) as [| k ks IH]; simpl.
  - rewrite lookup_empty. intros [v Hv]. discriminate.
  - destruct (out !! k) as [v |]; [| exact IH].
    destruct (decide (phase +:+ "/" +:+ k = key)) as [<- | Hne].
    + intros _. now exists k.
    + rewrite lookup_insert_ne by exact Hne. exact IH.
Qed.

Lemma log_metrics_no_loss (out : gmap string (value T Act)) (phase : string) :
  log_metrics C out phase !! "loss" = None.
Proof.
  destruct (log_metrics C out phase !! "loss") as [v |] eqn:E; [| reflexivity].
  destruct (log_metrics_keys out phase "loss") as [k Hk]; [now rewrite E |].
  symmetry in Hk. now apply metric_key_not_loss in Hk.
Qed.

(** The entry "loss" of the dictionary returned is [out.get("loss", None)]. *)
Lemma step_result_loss (out : gmap string (value T Act)) (phase : string) :
  step_result out (log_metrics C out phase) !! "loss"
  = Some (default VNone (out !! "loss")).
Proof.
  unfold step_result.
  rewrite lookup_union_r by apply log_metrics_no_loss.
  apply lookup_singleton_eq.
Qed.

(** The metrics are entries of the dictionary returned. *)
Lemma step_result_metric (out metrics : gmap string (value T Act))
    (key : string) (v : value T Act) :
  metrics !! key = Some v -> step_result out metrics !! key = Some v.
Proof.
  intros Hv. unfold step_result. now apply lookup_union_Some_l.
Qed.

Lemma dict_of_policy_out_loss (o : policy_out T Act) :
  dict_of_policy_out o !! "loss" = None.
Proof.
  unfold dict_of_policy_out.
  rewrite !lookup_insert_ne by discriminate. apply lookup_empty.
Qed.

Lemma phase_eqb_train (phase : string) :
  phase <> "train" -> String.eqb phase "train" = false.
Proof. intros Hne. now apply String.eqb_neq. Qed.

(** C7: a [mini_batch_size] that is neither an [int] nor a [float] goes
    through the constructor untouched and without a warning, and the
    training step then raises the [ValueError] of line 145: no parameters
    and no metrics come back. *)
Theorem unsupported_mini_batch_size_raises
    (clip : R) (epochs : Z) (vf ent : R) (norm : bool) (max_norm : option R)
    (theta : Params) (perms : nat -> list nat) (batch : Batch) :
  PPO_init clip epochs PyOther vf ent norm max_norm
  = (mk_ppo_cfg clip epochs PyOther vf ent norm max_norm, [])
  /\ shared_step C (mk_ppo_cfg clip epochs PyOther vf ent norm max_norm)
                   theta perms batch "train"
     = inl (ValueError "mini_batch_size must be an integer or a float.").
Proof. split; reflexivity. Qed.

(** C10: in a phase other than "train" the step returns the parameters it
    was given, and the dictionary it returns is made from the output of the
    decoding policy under [no_grad] alone: its "loss" is [None], and neither
    the scoring pass of the policy, nor the critic, nor the optimizer has a
    say in the result. *)
Theorem non_train_phase_only_evaluates
    (cfg : ppo_cfg) (theta : Params) (perms : nat -> list nat) (batch : Batch)
    (phase : string) :
  phase <> "train" ->
  let out := dict_of_policy_out
               (no_grad (policy_decode C theta phase (env_reset C batch))) in
  shared_step C cfg theta perms batch phase
  = inr (theta, step_result out (log_metrics C out phase))
  /\ step_result out (log_metrics C out phase) !! "loss" = Some VNone
  /\ forall score' critic' optimizer_step',
       shared_step (mk_collaborators (env_reset C) (policy_decode C) score'
                      critic' optimizer_step' (metric_names C))
                   cfg theta perms batch phase
       = shared_step C cfg theta perms batch phase.
Proof.
  intros Hphase out. unfold shared_step.
  rewrite (phase_eqb_train phase Hphase).
  split; [reflexivity | split].
  - rewrite step_result_loss. unfold out.
    now rewrite dict_of_policy_out_loss.
  - reflexivity.
Qed.


End StepControl.

Lemma non_train_phase_only_evaluates_witness :
  let out := dict_of_policy_out
               (no_grad (policy_decode count_collaborators 0 "val"
                           (env_reset count_collaborators [1%R; 3%R]))) in
  shared_step count_collaborators default_cfg 0 (fun _ => [0; 1])
              [1%R; 3%R] "val"
  = inr (0, step_result out (log_metrics count_collaborators out "val"))
  /\ step_result out (log_metrics count_collaborators out "val") !! "loss"
     = Some VNone
  /\ forall score' critic' optimizer_step',
       shared_step (mk_collaborators (env_reset count_collaborators)
                      (policy_decode count_collaborators) score' critic'
                      optimizer_step' (metric_names count_collaborators))
                   default_cfg 0 (fun _ => [0; 1]) [1%R; 3%R] "val"
       = shared_step count_collaborators default_cfg 0 (fun _ => [0; 1])
                     [1%R; 3%R] "val".
Proof.
  apply (non_train_phase_only_evaluates count_collaborators default_cfg 0
           (fun _ => [0; 1]) [1%R; 3%R] "val").
  discriminate.
Defined.


(* ===================================================================== *)
(** * Properties of shared_step: what the training branch reports *)
(* ===================================================================== *)

Section StepMetrics.
Context {T : Type} `{Scalar T} {St Act Batch Params : Type}.
Variable C : collaborators T St Act Batch Params.
Variable cfg : ppo_cfg.

(** The state the loops end in is the one the body leaves on the last
    minibatch of the last pass. *)
Lemma inner_loop_last_minibatch (td : tensordict T St Act) (dl : DataLoader)
    (perms : nat -> list nat) (theta : Params) (k : nat)
    (batches : list (list nat)) (b : list nat) :
  Z.to_nat (ppo_epochs cfg) = S k ->
  DataLoader_iter dl (perms k) = batches ++ [b] ->
  exists s : loop_state T Params,
    inner_loop C cfg td dl perms theta = minibatch_step C cfg td s b.
Proof.
  intros Hk Hb. unfold inner_loop. rewrite Hk, seq_S, fold_left_app. simpl.
  unfold inner_epoch at 1. rewrite Hb, fold_left_app. simpl.
  eexists. reflexivity.
Qed.

(** The body always leaves the locals bound: the output of the scoring
    pass on this minibatch and the losses computed from it. *)
Lemma minibatch_step_locals (td : tensordict T St Act) (s : loop_state T Params)
    (b : list nat) :
  snd (minibatch_step C cfg td s b)
  = Some (policy_score C (fst s) (collate td b),
          minibatch_losses cfg (collate td b)
            (policy_score C (fst s) (collate td b))
            (critic C (fst s) (collate td b))).
Proof. reflexivity. Qed.

(** The training branch, once the loader is built and the loops have run. *)
Lemma train_step_result (theta theta' : Params) (perms : nat -> list nat)
    (batch : Batch) (mbs : Z) (dl : DataLoader) (o : eval_out T)
    (ls : losses T) :
  let td := env_reset C batch in
  let out := no_grad (policy_decode C theta "train" td) in
  effective_mini_batch_size cfg (Z.of_nat (length (po_actions out))) = inr mbs ->
  DataLoader_init (length td) mbs = inr dl ->
  inner_loop C cfg
    (mk_tensordict td (po_log_likelihood out) (po_reward out) (po_actions out))
    dl perms theta = (theta', Some (o, ls)) ->
  shared_step C cfg theta perms batch "train"
  = inr (theta',
         step_result (update_out (dict_of_eval_out o) ls)
           (log_metrics C (update_out (dict_of_eval_out o) ls) "train")).
Proof.
  intros td out Hmbs Hdl Hloop. unfold shared_step. simpl String.eqb. cbv iota.
  fold td. fold out. rewrite Hmbs, Hdl, Hloop. reflexivity.
Qed.

(** What the dictionary returned holds under the default metric names: the
    four loss components are the locals of the last iteration, and "reward"
    is the mean of the reward in [out], which by then is the output of the
    last scoring pass. *)
Lemma train_step_metrics (o : eval_out T) (ls : losses T) :
  metric_names C "train" = default_train_metrics ->
  let out := update_out (dict_of_eval_out (Act := Act) o) ls in
  let res := step_result out (log_metrics C out "train") in
  res !! "loss" = Some (VScalar (l_loss ls))
  /\ res !! "train/loss" = Some (VScalar (l_loss ls))
  /\ res !! "train/surrogate_loss" = Some (VScalar (l_surrogate_loss ls))
  /\ res !! "train/value_loss" = Some (VScalar (l_value_loss ls))
  /\ res !! "train/entropy" = Some (VScalar (l_entropy ls))
  /\ res !! "train/reward" = Some (VScalar (t_mean (eo_reward o))).
Proof.
  intros Hnames out res. split.
  - unfold res. rewrite step_result_loss. unfold out, update_out.
    now simplify_map_eq.
  - unfold res.
    repeat split; apply step_result_metric; unfold log_metrics;
      rewrite Hnames; unfold default_train_metrics; cbn [foldr];
      unfold out, update_out, dict_of_eval_out; now simplify_map_eq.
Qed.

(** X10: without a pass ([ppo_epochs <= 0]) the body never runs and line
    227 reads an unbound local: the training branch raises
    [UnboundLocalError] once the [DataLoader] is built. *)
Lemma no_pass_raises (theta : Params) (perms : nat -> list nat)
    (batch : Batch) (mbs : Z) (dl : DataLoader) :
  let td := env_reset C batch in
  let out := no_grad (policy_decode C theta "train" td) in
  (ppo_epochs cfg <= 0)%Z ->
  effective_mini_batch_size cfg (Z.of_nat (length (po_actions out))) = inr mbs ->
  DataLoader_init (length td) mbs = inr dl ->
  shared_step C cfg theta perms batch "train" = inl (UnboundLocalError "loss").
Proof.
  intros td out Hk Hmbs Hdl. unfold shared_step. simpl String.eqb. cbv iota.
  fold td. fold out. rewrite Hmbs, Hdl. unfold inner_loop.
  replace (Z.to_nat (ppo_epochs cfg)) with 0 by lia. reflexivity.
Qed.

(** X11: the training branch reports the last minibatch of the last pass:
    the four loss components are the losses of this minibatch under the
    parameters [fst s] the loops had reached before it, and "reward" is the
    mean of the reward that the scoring pass returned for this minibatch. *)
Lemma train_step_reports_last_minibatch (theta : Params)
    (perms : nat -> list nat) (batch : Batch) (mbs : Z) (dl : DataLoader)
    (k : nat) (batches : list (list nat)) (b : list nat) :
  let td := env_reset C batch in
  let out := no_grad (policy_decode C theta "train" td) in
  let td' := mk_tensordict td (po_log_likelihood out) (po_reward out)
                           (po_actions out) in
  metric_names C "train" = default_train_metrics ->
  effective_mini_batch_size cfg (Z.of_nat (length (po_actions out))) = inr mbs ->
  DataLoader_init (length td) mbs = inr dl ->
  Z.to_nat (ppo_epochs cfg) = S k ->
  DataLoader_iter dl (perms k) = batches ++ [b] ->
  exists (s : loop_state T Params) (theta' : Params)
         (res : gmap string (value T Act)),
    let sub_td := collate td' b in
    let o := policy_score C (fst s) sub_td in
    let ls := minibatch_losses cfg sub_td o (critic C (fst s) sub_td) in
    shared_step C cfg theta perms batch "train" = inr (theta', res)
    /\ res !! "loss" = Some (VScalar (l_loss ls))
    /\ res !! "train/loss" = Some (VScalar (l_loss ls))
    /\ res !! "train/surrogate_loss" = Some (VScalar (l_surrogate_loss ls))
    /\ res !! "train/value_loss" = Some (VScalar (l_value_loss ls))
    /\ res !! "train/entropy" = Some (VScalar (t_mean (eo_entropy o)))
    /\ res !! "train/reward" = Some (VScalar (t_mean (eo_reward o))).
Proof.
  intros td out td' Hnames Hmbs Hdl Hk Hb.
  destruct (inner_loop_last_minibatch td' dl perms theta k batches b Hk Hb)
    as [s Hs].
  exists s. do 2 eexists. cbv zeta. split.
  - eapply train_step_result; [exact Hmbs | exact Hdl |].
    fold td. fold out. fold td'. rewrite Hs. reflexivity.
  - apply (train_step_metrics
             (policy_score C (fst s) (collate td' b))
             (minibatch_losses cfg (collate td' b)
                (policy_score C (fst s) (collate td' b))
                (critic C (fst s) (collate td' b)))
             Hnames).
Qed.

End StepMetrics.

(* ===================================================================== *)
(** * Properties of the losses, over the reals *)
(* ===================================================================== *)

Ltac real_ops :=
  cbn [sc_const sc_val sc_add sc_sub sc_mul sc_div sc_neg sc_exp sc_sqrt
       sc_abs sc_min sc_clamp sc_detach R_Scalar] in *.

Lemma t_sum_cons (x : R) (l : list R) : t_sum (x :: l) = (x + t_sum l)%R.
Proof. reflexivity. Qed.
Lemma t_mean_unfold (l : list R) : t_mean l = (t_sum l / INR (length l))%R.
Proof. reflexivity. Qed.

Lemma t_mean_single (x : R) : t_mean [x] = x.
Proof. unfold t_mean, t_sum. simpl. field. Qed.

Lemma t_mean_pair (x y : R) : t_mean [x; y] = ((x + y) / 2)%R.
Proof. unfold t_mean, t_sum. simpl. field. Qed.

Lemma t_sum_nonneg (l : list R) :
  Forall (fun x => (0 <= x)%R) l -> (0 <= t_sum l)%R.
Proof.
  induction 1 as [| x l Hx Hl IH]; [apply Rle_refl |].
  rewrite t_sum_cons. lra.
Qed.

Lemma t_mean_nonneg (l : list R) :
  Forall (fun x => (0 <= x)%R) l -> (0 <= t_mean l)%R.
Proof.
  intros Hl. rewrite t_mean_unfold. destruct l as [| x l].
  - unfold t_sum. simpl. lra.
  - apply Rmult_le_pos; [now apply t_sum_nonneg |].
    left. apply Rinv_0_lt_compat. apply lt_0_INR. simpl. lia.
Qed.

Lemma huber_entry_nonneg (x y : R) : (0 <= huber_entry x y)%R.
Proof.
  unfold huber_entry. real_ops.
  destruct (Rle_dec (Rabs (x - y)) 1) as [Hle | Hgt].
  - pose proof (Rle_0_sqr (x - y)) as Hsq. unfold Rsqr in Hsq. lra.
  - apply Rnot_le_lt in Hgt. lra.
Qed.

Lemma huber_loss_nonneg (input target : list R) :
  (0 <= huber_loss input target)%R.
Proof.
  unfold huber_loss. apply t_mean_nonneg. unfold t_map2.
  revert target. induction input as [| x input IH]; intros [| y target];
    simpl; constructor; [apply huber_entry_nonneg | apply IH].
Qed.









Lemma Rsum_S (n : nat) (f : nat -> R) :
  Rsum (S n) f = (f 0%nat + Rsum n (fun i => f (S i)))%R.
Proof.
  unfold Rsum. simpl. f_equal. rewrite <- seq_shift, map_map. reflexivity.
Qed.

Lemma surrogate_terms_sum (clip : R) (adv : list R) :
  forall (ll : list (list R)) (logprobs : list R),
  length ll = length adv -> length logprobs = length adv ->
  t_sum (t_map2 sc_min
           (t_map2 sc_mul (ratio ll logprobs) adv)
           (t_map2 sc_mul
              (map (fun r => sc_clamp r (1 - clip) (1 + clip))
                   (ratio ll logprobs)) adv))
  = Rsum (length adv)
      (fun i => spec_surrogate_term clip
                  (spec_ratio (t_sum (nth i ll [])) (nth i logprobs 0%R))
                  (nth i adv 0%R)).
Proof.
  induction adv as [| a adv IH]; intros [| l ll] [| lp logprobs] Hll Hlp;
    try discriminate.
  - reflexivity.
  - cbn [length]. rewrite Rsum_S. simpl in Hll, Hlp.
    specialize (IH ll logprobs ltac:(lia) ltac:(lia)).
    cbn [nth]. rewrite <- IH. reflexivity.
Qed.

Lemma advantage_length (cfg : ppo_cfg) (reward value_pred : list R) (n : nat) :
  length reward = n -> length value_pred = n ->
  length (advantage cfg reward value_pred) = n.
Proof.
  intros Hr Hv. unfold advantage, normalize, t_map2.
  destruct (normalize_adv cfg);
    rewrite ?length_map, length_zip_with, length_map; lia.
Qed.









Lemma huber_entry_cases (x y : R) :
  huber_entry x y
  = if Rle_dec (Rabs (x - y)) 1
    then ((x - y) * (x - y) / 2)%R
    else (Rabs (x - y) - 1 / 2)%R.
Proof.
  unfold huber_entry. real_ops.
  destruct (Rle_dec (Rabs (x - y)) 1); lra.
Qed.



Section LossClaims.
Context {St Act Batch Params : Type}.

(** C1: in the body of the inner loop, the surrogate loss of a minibatch of
    [n] instances is the negated mean over the instances of
    [min(ratio * adv, clamp(ratio, 1 - clip_range, 1 + clip_range) * adv)],
    where the ratio of instance [i] is the exponential of the difference
    between the log-likelihood the current policy gives to the stored
    actions (its per-step terms summed) and the stored log-probability; the
    first term of the minimum takes this exponential as it is. *)
Theorem surrogate_loss_is_clipped_objective
    (cfg : ppo_cfg) (sub_td : tensordict R St Act) (out : eval_out R)
    (value_pred : list R) (n : nat) :
  length (td_logprobs sub_td) = n ->
  length (td_reward sub_td) = n ->
  length (eo_log_likelihood out) = n ->
  length value_pred = n ->
  l_surrogate_loss (minibatch_losses cfg sub_td out value_pred)
  = spec_surrogate_loss (clip_range cfg) n
      (fun i => t_sum (nth i (eo_log_likelihood out) []))
      (fun i => nth i (td_logprobs sub_td) 0%R)
      (fun i => nth i (advantage cfg (td_reward sub_td) value_pred) 0%R).
Proof.
  intros Hlp Hr Hll Hv.
  pose proof (advantage_length cfg (td_reward sub_td) value_pred n Hr Hv) as Hadv.
  unfold minibatch_losses. cbn [l_surrogate_loss].
  unfold surrogate_loss, spec_surrogate_loss. real_ops.
  rewrite t_mean_unfold.
  rewrite (surrogate_terms_sum (clip_range cfg)
             (advantage cfg (td_reward sub_td) value_pred)
             (eo_log_likelihood out) (td_logprobs sub_td)) by congruence.
  unfold t_map2, ratio, t_map2.
  rewrite !length_zip_with, !length_map, !length_zip_with, !length_map.
  rewrite Hadv, Hll, Hlp, !Nat.min_id.
  reflexivity.
Qed.

(** C3: in the body of the inner loop, the value loss is the Huber loss
    between the prediction of the critic and the stored reward, entry by
    entry half the squared difference up to distance 1 and the distance
    minus one half beyond, so it is never negative; and the loss handed to
    the optimizer, once per minibatch, is
    [surrogate_loss + vf_lambda * value_loss - entropy_lambda * mean(entropy)]. *)
Theorem total_loss_is_weighted_sum
    (C : collaborators R St Act Batch Params) (cfg : ppo_cfg)
    (td : tensordict R St Act) (s : loop_state R Params) (idxs : list nat) :
  let sub_td := collate td idxs in
  let out := policy_score C (fst s) sub_td in
  let value_pred := critic C (fst s) sub_td in
  let ls := minibatch_losses cfg sub_td out value_pred in
  l_value_loss ls = huber_loss value_pred (td_reward sub_td)
  /\ (forall x y : R,
        huber_entry x y = if Rle_dec (Rabs (x - y)) 1
                          then ((x - y) * (x - y) / 2)%R
                          else (Rabs (x - y) - 1 / 2)%R)
  /\ (0 <= l_value_loss ls)%R
  /\ l_loss ls = (l_surrogate_loss ls + vf_lambda cfg * l_value_loss ls
                  - entropy_lambda cfg * t_mean (eo_entropy out))%R
  /\ minibatch_step C cfg td s idxs
     = (optimizer_step C (max_grad_norm cfg) (fst s) (l_loss ls), Some (out, ls)).
Proof.
  intros sub_td out value_pred ls.
  split; [reflexivity | split; [| split; [| split; reflexivity]]].
  - apply huber_entry_cases.
  - apply huber_loss_nonneg.
Qed.

End LossClaims.

Lemma surrogate_loss_is_clipped_objective_witness :
  l_surrogate_loss (minibatch_losses default_cfg two_rows two_rows_out [0%R; 0%R])
  = spec_surrogate_loss (clip_range default_cfg) 2
      (fun i => t_sum (nth i (eo_log_likelihood two_rows_out) []))
      (fun i => nth i (td_logprobs two_rows) 0%R)
      (fun i => nth i (advantage default_cfg (td_reward two_rows) [0%R; 0%R]) 0%R).
Proof.
  apply (surrogate_loss_is_clipped_objective default_cfg two_rows two_rows_out
           [0%R; 0%R] 2); reflexivity.
Defined.

(* ===================================================================== *)
(** * Properties of the losses, with derivatives: what detach cuts *)
(* ===================================================================== *)

Ltac dual_ops :=
  cbn [sc_const sc_val sc_add sc_sub sc_mul sc_div sc_neg sc_exp sc_sqrt
       sc_abs sc_min sc_clamp sc_detach dual_Scalar d_val d_tan] in *.



Lemma t_sum_tangent_zero (l : list dual) :
  Forall (fun x => d_tan x = 0%R) l -> d_tan (t_sum l) = 0%R.
Proof.
  induction 1 as [| x l Hx Hl IH]; [reflexivity |].
  change (t_sum (x :: l)) with (sc_add x (t_sum l)). dual_ops. lra.
Qed.

Lemma t_mean_tangent_zero (l : list dual) :
  Forall (fun x => d_tan x = 0%R) l -> d_tan (t_mean l) = 0%R.
Proof.
  intros Hl. unfold t_mean. dual_ops.
  rewrite (t_sum_tangent_zero l Hl). unfold Rdiv. ring.
Qed.

Lemma Forall_map_tangent_zero (f : dual -> dual) (l : list dual) :
  (forall x, d_tan x = 0%R -> d_tan (f x) = 0%R) ->
  Forall (fun x => d_tan x = 0%R) l ->
  Forall (fun x => d_tan x = 0%R) (map f l).
Proof.
  intros Hf. induction 1; constructor; auto.
Qed.

Lemma Forall_zip_tangent_zero (f : dual -> dual -> dual) (l k : list dual) :
  (forall x y, d_tan x = 0%R -> d_tan y = 0%R -> d_tan (f x y) = 0%R) ->
  Forall (fun x => d_tan x = 0%R) l ->
  Forall (fun x => d_tan x = 0%R) k ->
  Forall (fun x => d_tan x = 0%R) (zip_with f l k).
Proof.
  intros Hf Hl. revert k. induction Hl as [| x l Hx Hl IH]; intros k Hk.
  - constructor.
  - destruct Hk as [| y k Hy Hk]; constructor; auto.
Qed.

Lemma t_std_tangent_zero (l : list dual) :
  Forall (fun x => d_tan x = 0%R) l -> d_tan (t_std l) = 0%R.
Proof.
  intros Hl. unfold t_std.
  pose proof (t_mean_tangent_zero l Hl) as Hm.
  assert (Hsq : d_tan (t_sum (map (fun x => sc_mul (sc_sub x (t_mean l))
                                               (sc_sub x (t_mean l))) l)) = 0%R).
  { apply t_sum_tangent_zero. apply Forall_map_tangent_zero; [| assumption].
    intros x Hx. dual_ops. rewrite Hx, Hm. ring. }
  dual_ops. rewrite Hsq. unfold Rdiv. ring.
Qed.

Lemma advantage_tangent_zero (cfg : ppo_cfg) (reward vp : list dual) :
  Forall (fun x => d_tan x = 0%R) reward ->
  Forall (fun x => d_tan x = 0%R) (advantage cfg reward vp).
Proof.
  intros Hr.
  assert (Hraw : Forall (fun x => d_tan x = 0%R)
                   (t_map2 sc_sub reward (map sc_detach vp))).
  { apply Forall_zip_tangent_zero; [| assumption |].
    - intros x y Hx Hy. dual_ops. lra.
    - clear. induction vp; constructor; auto. }
  unfold advantage. destruct (normalize_adv cfg); [| assumption].
  unfold normalize.
  pose proof (t_mean_tangent_zero _ Hraw) as Hm.
  pose proof (t_std_tangent_zero _ Hraw) as Hs.
  apply Forall_map_tangent_zero; [| assumption].
  intros a Ha. dual_ops. rewrite Ha, Hm, Hs. unfold Rdiv. ring.
Qed.

Lemma dual_min_tangent_zero (a b : dual) :
  d_tan a = 0%R -> d_tan b = 0%R -> d_tan (dual_min a b) = 0%R.
Proof.
  intros Ha Hb. unfold dual_min. cbn [d_tan].
  destruct (Rlt_dec (d_val a) (d_val b)); [assumption |].
  destruct (Rlt_dec (d_val b) (d_val a)); [assumption |].
  rewrite Ha, Hb. lra.
Qed.

Lemma dual_clamp_tangent_zero (a : dual) (lo hi : R) :
  d_tan a = 0%R -> d_tan (dual_clamp a lo hi) = 0%R.
Proof.
  intros Ha. unfold dual_clamp. cbn [d_tan].
  destruct (Rle_dec lo (d_val a)); [| reflexivity].
  destruct (Rle_dec (d_val a) hi); [assumption | reflexivity].
Qed.

Lemma surrogate_loss_tangent_zero (cfg : ppo_cfg) (ratio adv : list dual) :
  Forall (fun x => d_tan x = 0%R) ratio ->
  Forall (fun x => d_tan x = 0%R) adv ->
  d_tan (surrogate_loss cfg ratio adv) = 0%R.
Proof.
  intros Hr Ha. unfold surrogate_loss.
  assert (Hmul : forall x y : dual,
             d_tan x = 0%R -> d_tan y = 0%R -> d_tan (sc_mul x y) = 0%R).
  { intros x y Hx Hy. dual_ops. rewrite Hx, Hy. ring. }
  assert (Hterms : Forall (fun x => d_tan x = 0%R)
            (t_map2 sc_min (t_map2 sc_mul ratio adv)
               (t_map2 sc_mul
                  (map (fun r => sc_clamp r (1 - clip_range cfg)
                                            (1 + clip_range cfg)) ratio)
                  adv))).
  { apply Forall_zip_tangent_zero.
    - intros x y. apply dual_min_tangent_zero.
    - now apply Forall_zip_tangent_zero.
    - apply Forall_zip_tangent_zero; [exact Hmul | | assumption].
      apply Forall_map_tangent_zero; [| assumption].
      intros x. apply dual_clamp_tangent_zero. }
  pose proof (t_mean_tangent_zero _ Hterms) as Hm.
  dual_ops. rewrite Hm. ring.
Qed.

(** The value loss does carry the derivative of the critic. *)
Example huber_loss_tangent :
  d_tan (huber_loss [mk_dual 0 1] [mk_dual 1 0]) = (-1)%R.
Proof.
  unfold huber_loss, t_mean, t_map2, huber_entry. cbn [zip_with]. dual_ops.
  destruct (Rle_dec (Rabs (0 - 1)) 1) as [Hle | Hgt].
  - unfold t_sum. cbn [foldr length INR]. dual_ops. field.
  - exfalso. apply Hgt. rewrite Rabs_left by lra. lra.
Qed.



(* ===================================================================== *)
(** * The training branch at the small instance *)
(* ===================================================================== *)

(** The end-to-end case of the specification: 4 instances, minibatches of
    2 and 2 passes are 4 optimizer steps. *)
Example four_optimizer_steps :
  exists res,
    shared_step count_collaborators
      (mk_ppo_cfg (1 / 5) 2 (PyInt 2) (1 / 2) 0 false (Some (1 / 2)%R))
      0 (fun k => if k is 0 then [2; 0; 3; 1] else [1; 3; 0; 2])
      [1%R; 2%R; 3%R; 4%R] "train"
    = inr (4, res).
Proof.
  eexists.
  eapply (train_step_result count_collaborators _ 0); reflexivity.
Qed.

(** C5 at a rollout of two instances with rewards 1 and 3, visited one by
    one in the order 0, 1 during a single pass: the step succeeds after two
    optimizer steps, the mean reward of the rollout is 2, and the "reward"
    it reports is 3, the reward of the last minibatch alone, since [out] has
    been rebound to the output of the last scoring pass. *)
Theorem train_reward_is_of_last_minibatch :
  exists res : gmap string (value R nat),
    shared_step count_collaborators one_by_one_cfg 0 (fun _ => [0; 1])
                [1%R; 3%R] "train" = inr (2, res)
    /\ res !! "train/reward" = Some (VScalar 3%R)
    /\ t_mean (po_reward (no_grad (policy_decode count_collaborators 0 "train"
                 (env_reset count_collaborators [1%R; 3%R])))) = 2%R.
Proof.
  eexists. split; [| split].
  - eapply (train_step_result count_collaborators one_by_one_cfg 0 _
              (fun _ => [0; 1]) [1%R; 3%R]); reflexivity.
  - destruct (train_step_metrics count_collaborators
                (mk_eval_out [3%R] [[0%R]] [0%R])
                (minibatch_losses one_by_one_cfg
                   (mk_tensordict [3%R] [0%R] [3%R] [0])
                   (mk_eval_out [3%R] [[0%R]] [0%R]) [0%R])
                eq_refl) as (_ & _ & _ & _ & _ & Hreward).
    etransitivity; [exact Hreward |].
    cbn [eo_reward]. now rewrite t_mean_single.
  - change (t_mean [1%R; 3%R] = 2%R). rewrite t_mean_pair. lra.
Qed.

(* ===================================================================== *)
(** * Further properties of the constructor *)
(* ===================================================================== *)

(** What the constructor leaves in the configuration. *)
Lemma check_mini_batch_size_cases (m : py_num) :
  (exists q, m = PyFloat q /\ (0 < q /\ q <= 1)%Q
             /\ check_mini_batch_size m = (m, []))
  \/ (exists q, m = PyFloat q /\ ~ (0 < q /\ q <= 1)%Q
             /\ check_mini_batch_size m
                = (PyFloat (1 # 4), [Warning m (PyFloat (1 # 4))]))
  \/ (exists n, m = PyInt n /\ (0 < n)%Z /\ check_mini_batch_size m = (m, []))
  \/ (exists n, m = PyInt n /\ (n <= 0)%Z
             /\ check_mini_batch_size m = (PyInt 128, [Warning m (PyInt 128)]))
  \/ (m = PyOther /\ check_mini_batch_size m = (m, [])).
Proof.
  destruct m as [n | q |].
  - destruct (Z_lt_le_dec 0 n) as [Hpos | Hle].
    + right; right; left. exists n. auto using positive_int_kept.
    + right; right; right; left. exists n. auto using check_mini_batch_size_int.
  - destruct (float_out_of_range (PyFloat q)) eqn:E.
    + apply float_out_of_range_spec in E.
      right; left. exists q. auto using check_mini_batch_size_float.
    + left. exists q.
      assert (Hin : (0 < q /\ q <= 1)%Q).
      { unfold float_out_of_range in E.
        apply orb_false_iff in E. destruct E as [E0 E1].
        apply negb_false_iff in E1. split.
        - apply Qnot_le_lt. intros Hle. apply Qle_bool_iff in Hle. congruence.
        - now apply Qle_bool_iff. }
      auto using float_in_range_kept.
  - right; right; right; right. auto.
Qed.


(** X2: the constructor logs no warning exactly when it keeps the
    [mini_batch_size] it was given; otherwise it logs one warning, which
    names the value given and the value set; and the value it leaves is
    one it accepts, so constructing again from it changes nothing and logs
    nothing. *)
Theorem PPO_init_warns_iff_replaced
    (clip : R) (epochs : Z) (mbs : py_num) (vf ent : R) (norm : bool)
    (max_norm : option R) :
  let '(cfg, warnings) := PPO_init clip epochs mbs vf ent norm max_norm in
  (warnings = [] <-> mini_batch_size cfg = mbs)
  /\ (warnings = [] \/ warnings = [Warning mbs (mini_batch_size cfg)])
  /\ PPO_init clip epochs (mini_batch_size cfg) vf ent norm max_norm = (cfg, []).
Proof.
  unfold PPO_init.
  destruct (check_mini_batch_size_cases mbs)
    as [(q & -> & Hin & Hc) | [(q & -> & Hout & Hc) | [(n & -> & Hpos & Hc)
        | [(n & -> & Hle & Hc) | [-> Hc]]]]]; rewrite Hc; cbn [mini_batch_size].
  - rewrite Hc. intuition.
  - split; [| split].
    + split; [discriminate |]. intros [= Hq]. exfalso. apply Hout.
      rewrite <- Hq. split; [reflexivity | unfold Qle; simpl; lia].
    + now right.
    + reflexivity.
  - rewrite Hc. intuition.
  - split; [| split].
    + split; [discriminate |]. intros [= Hn]. lia.
    + now right.
    + reflexivity.
  - rewrite Hc. intuition.
Qed.

(* ===================================================================== *)
(** * Further properties of the minibatch size and of the sampler *)
(* ===================================================================== *)




(** X4: under a positive integer [n] and a batch that is not empty, the
    effective minibatch size is [min(n, batch_size)] and the [DataLoader]
    is built with it. *)
Theorem integer_effective_size (cfg : ppo_cfg) (n : Z) (batch_size : nat) :
  mini_batch_size cfg = PyInt n ->
  (0 < n)%Z ->
  1 <= batch_size ->
  effective_mini_batch_size cfg (Z.of_nat batch_size)
  = inr (Z.min n (Z.of_nat batch_size))
  /\ DataLoader_init batch_size (Z.min n (Z.of_nat batch_size))
     = inr (mk_DataLoader batch_size (Nat.min (Z.to_nat n) batch_size)).
Proof.
  intros Hn Hpos Hb. split.
  - unfold effective_mini_batch_size, infer_mini_batch_size,
      clamp_mini_batch_size. rewrite Hn.
    destruct (Z.gtb_spec n (Z.of_nat batch_size)); f_equal; lia.
  - rewrite DataLoader_init_ok by lia. do 2 f_equal. lia.
Qed.

Lemma integer_effective_size_witness :
  effective_mini_batch_size one_by_one_cfg (Z.of_nat 2)
  = inr (Z.min 1 (Z.of_nat 2))
  /\ DataLoader_init 2 (Z.min 1 (Z.of_nat 2))
     = inr (mk_DataLoader 2 (Nat.min (Z.to_nat 1) 2)).
Proof.
  apply (integer_effective_size one_by_one_cfg 1 2); [reflexivity | lia | lia].
Defined.

Lemma batch_sampler_length (b : nat) (idxs cur : list nat) :
  length cur < b ->
  length (batch_sampler b cur idxs)
  = (length cur + length idxs + (b - 1)) / b.
Proof.
  revert cur. induction idxs as [| i rest IH]; intros cur Hcur.
  - destruct cur as [| c cur'].
    + simpl. symmetry. apply Nat.div_small. lia.
    + cbn [batch_sampler length]. rewrite Nat.add_0_r.
      replace (S (length cur') + (b - 1)) with (1 * b + length cur')
        by lia.
      rewrite Nat.div_add_l by lia. rewrite Nat.div_small by (simpl in Hcur; lia).
      reflexivity.
  - rewrite batch_sampler_cons.
    destruct (Nat.eqb_spec (S (length cur)) b) as [Hfull | Hroom].
    + cbn [length]. rewrite (IH []) by (simpl; lia). cbn [length].
      replace (length cur + S (length rest) + (b - 1))
        with (1 * b + (0 + length rest + (b - 1))) by lia.
      rewrite Nat.div_add_l by lia. reflexivity.
    + rewrite IH by (simpl; lia). cbn [length]. f_equal. lia.
Qed.

(** X5: with a positive minibatch size, the minibatches of one pass visit
    every index of the rollout exactly once, and so every row of a column
    of [td]; no minibatch is empty or longer than the minibatch size, and
    each collated column has one row per index. *)
Theorem minibatches_cover_rollout_once {A : Type} (col : list A)
    (dl : DataLoader) (perm : list nat) :
  0 < dl_batch_size dl ->
  dl_len dl = length col ->
  Permutation perm (seq 0 (dl_len dl)) ->
  Permutation (concat (DataLoader_iter dl perm)) (seq 0 (dl_len dl))
  /\ NoDup (concat (DataLoader_iter dl perm))
  /\ Permutation (concat (map (gather col) (DataLoader_iter dl perm))) col
  /\ Forall (fun batch => 0 < length batch <= dl_batch_size dl
                          /\ length (gather col batch) = length batch)
            (DataLoader_iter dl perm).
Proof.
  intros Hpos Hlen Hperm.
  destruct (DataLoader_iter_partition dl perm Hpos Hperm) as (Hp & Hnd & Hsz).
  destruct (minibatches_partition_rows col dl perm Hpos Hlen Hperm) as [Hc Hg].
  repeat split; try assumption.
  - now rewrite Hc.
  - apply Forall_forall. intros batch Hin. split.
    + rewrite Forall_forall in Hsz. now apply Hsz.
    + assert (Hsub : forall i, i ∈ batch -> i < length col).
      { intros i Hi.
        assert (Hi' : i ∈ concat (DataLoader_iter dl perm)).
        { apply list_elem_of_In, in_concat. exists batch.
          split; now apply list_elem_of_In. }
        rewrite Hp in Hi'. apply elem_of_seq in Hi'. lia. }
      clear Hin. induction batch as [| i batch IH]; [reflexivity |].
      rewrite gather_cons.
      destruct (lookup_lt_is_Some_2 col i) as [x Hx].
      { apply Hsub. left. }
      rewrite Hx. cbn [length]. f_equal. apply IH.
      intros j Hj. apply Hsub. now right.
Qed.

Lemma DataLoader_iter_length_aux (dl : DataLoader) (perm : list nat) :
  0 < dl_batch_size dl ->
  length perm = dl_len dl ->
  length (DataLoader_iter dl perm)
  = (dl_len dl + (dl_batch_size dl - 1)) / dl_batch_size dl.
Proof.
  intros Hpos Hlen. unfold DataLoader_iter.
  rewrite batch_sampler_length by (simpl; lia). simpl. now rewrite Hlen.
Qed.

Lemma batch_sampler_full (b : nat) (idxs cur : list nat) :
  length cur < b ->
  Forall (fun batch => length batch = b)
         (removelast (batch_sampler b cur idxs)).
Proof.
  revert cur. induction idxs as [| i rest IH]; intros cur Hcur.
  - destruct cur; constructor.
  - rewrite batch_sampler_cons.
    destruct (Nat.eqb_spec (S (length cur)) b) as [Hfull | Hroom].
    + specialize (IH [] ltac:(simpl; lia)).
      destruct (batch_sampler b [] rest) as [| x l] eqn:E; [constructor |].
      change (removelast (rev (i :: cur) :: x :: l))
        with (rev (i :: cur) :: removelast (x :: l)).
      constructor; [| exact IH]. rewrite length_rev. exact Hfull.
    + apply IH. simpl. lia.
Qed.

(** X6: one pass over [n] instances in minibatches of [b] is
    [ceil(n / b)] minibatches, all of exactly [b] instances except possibly
    the last. *)
Theorem DataLoader_iter_length (dl : DataLoader) (perm : list nat) :
  0 < dl_batch_size dl ->
  length perm = dl_len dl ->
  length (DataLoader_iter dl perm)
  = (dl_len dl + (dl_batch_size dl - 1)) / dl_batch_size dl
  /\ Forall (fun batch => length batch = dl_batch_size dl)
            (removelast (DataLoader_iter dl perm)).
Proof.
  intros Hpos Hlen. split.
  - now apply DataLoader_iter_length_aux.
  - unfold DataLoader_iter. apply batch_sampler_full. simpl. lia.
Qed.

Lemma DataLoader_iter_length_witness :
  length (DataLoader_iter (mk_DataLoader 5 2) [4; 0; 3; 1; 2])
  = (5 + (2 - 1)) / 2
  /\ Forall (fun batch => length batch = 2)
            (removelast (DataLoader_iter (mk_DataLoader 5 2) [4; 0; 3; 1; 2])).
Proof.
  apply (DataLoader_iter_length (mk_DataLoader 5 2) [4; 0; 3; 1; 2]).
  - simpl. lia.
  - reflexivity.
Defined.

(* ===================================================================== *)
(** * Further properties of shared_step: how the training branch ends *)
(* ===================================================================== *)

Section StepOutcome.
Context {T : Type} `{Scalar T} {St Act Batch Params : Type}.
Variable C : collaborators T St Act Batch Params.
Variable cfg : ppo_cfg.

Lemma fold_minibatch_step_bound (td : tensordict T St Act)
    (batches : list (list nat)) (s : loop_state T Params) :
  batches <> [] \/ is_Some (snd s) ->
  is_Some (snd (fold_left (minibatch_step C cfg td) batches s)).
Proof.
  revert s. induction batches as [| b batches IH]; intros s Hs.
  - destruct Hs as [Hne | Hs]; [congruence | exact Hs].
  - cbn [fold_left]. apply IH. right. rewrite minibatch_step_locals. eauto.
Qed.

Lemma inner_loop_bound (td : tensordict T St Act) (dl : DataLoader)
    (perms : nat -> list nat) (ks : list nat) (s : loop_state T Params) :
  (ks <> [] /\ forall k, DataLoader_iter dl (perms k) <> []) \/ is_Some (snd s) ->
  is_Some (snd (fold_left (inner_epoch C cfg td dl perms) ks s)).
Proof.
  revert s. induction ks as [| k ks IH]; intros s Hs.
  - destruct Hs as [[Hne _] | Hs]; [congruence | exact Hs].
  - cbn [fold_left]. apply IH. right. unfold inner_epoch.
    apply fold_minibatch_step_bound.
    destruct Hs as [[_ Hb] | Hs]; [left; apply Hb | now right].
Qed.

Lemma DataLoader_iter_nonempty (dl : DataLoader) (perm : list nat) :
  0 < dl_batch_size dl -> perm <> [] -> DataLoader_iter dl perm <> [].
Proof.
  intros Hpos Hne Hnil.
  pose proof (batch_sampler_concat (dl_batch_size dl) perm []) as Hc.
  unfold DataLoader_iter in Hnil. rewrite Hnil in Hc. simpl in Hc.
  symmetry in Hc. now apply Hne, Hc.
Qed.

Lemma train_step_runs (theta : Params) (perms : nat -> list nat)
    (batch : Batch) (mbs : Z) :
  let td := env_reset C batch in
  let out := no_grad (policy_decode C theta "train" td) in
  let td' := mk_tensordict td (po_log_likelihood out) (po_reward out)
                           (po_actions out) in
  let dl := mk_DataLoader (length td) (Z.to_nat mbs) in
  effective_mini_batch_size cfg (Z.of_nat (length (po_actions out))) = inr mbs ->
  (0 < mbs)%Z ->
  (0 < ppo_epochs cfg)%Z ->
  (forall k, perms k <> []) ->
  exists (o : eval_out T) (ls : losses T),
    snd (inner_loop C cfg td' dl perms theta) = Some (o, ls)
    /\ shared_step C cfg theta perms batch "train"
       = inr (fst (inner_loop C cfg td' dl perms theta),
              step_result (update_out (dict_of_eval_out o) ls)
                (log_metrics C (update_out (dict_of_eval_out o) ls) "train")).
Proof.
  intros td out td' dl Hmbs Hpos Hk Hperms.
  pose proof (DataLoader_init_ok (length td) mbs Hpos) as Hdl. fold dl in Hdl.
  assert (Hsome : is_Some (snd (inner_loop C cfg td' dl perms theta))).
  { unfold inner_loop. apply inner_loop_bound. left. split.
    - destruct (Z.to_nat (ppo_epochs cfg)) eqn:E; [lia | discriminate].
    - intros k. apply DataLoader_iter_nonempty; [simpl; lia | apply Hperms]. }
  destruct (inner_loop C cfg td' dl perms theta) as [theta' last] eqn:Hloop.
  destruct Hsome as [[o ls] Hlast]. simpl in Hlast. subst last.
  exists o, ls. split; [reflexivity |].
  eapply train_step_result; [exact Hmbs | exact Hdl | exact Hloop].
Qed.

(** X7: with a positive effective minibatch size, at least one pass and a
    sampler that yields indices, the training branch raises nothing: it
    returns parameters and a dictionary whose "loss" is a tensor, not
    [None]. *)
Theorem train_step_succeeds (theta : Params) (perms : nat -> list nat)
    (batch : Batch) (mbs : Z) :
  let td := env_reset C batch in
  let out := no_grad (policy_decode C theta "train" td) in
  effective_mini_batch_size cfg (Z.of_nat (length (po_actions out))) = inr mbs ->
  (0 < mbs)%Z ->
  (0 < ppo_epochs cfg)%Z ->
  (forall k, perms k <> []) ->
  exists (theta' : Params) (res : gmap string (value T Act)),
    shared_step C cfg theta perms batch "train" = inr (theta', res)
    /\ is_Some (res !! "loss") /\ res !! "loss" <> Some VNone.
Proof.
  intros td out Hmbs Hpos Hk Hperms.
  destruct (train_step_runs theta perms batch mbs Hmbs Hpos Hk Hperms)
    as (o & ls & _ & Hstep).
  do 2 eexists. split; [exact Hstep |].
  rewrite step_result_loss. unfold update_out.
  rewrite !lookup_insert_ne by discriminate. rewrite lookup_insert_eq.
  split; [eauto | discriminate].
Qed.


End StepOutcome.

Section StepCount.
Context {T : Type} `{Scalar T} {St Act Batch : Type}.
Variable C : collaborators T St Act Batch nat.
Variable cfg : ppo_cfg.
Hypothesis optimizer_counts :
  forall (mg : option R) (theta : nat) (loss : T),
    optimizer_step C mg theta loss = S theta.

Lemma fold_minibatch_step_count (td : tensordict T St Act)
    (batches : list (list nat)) (s : loop_state T nat) :
  fst (fold_left (minibatch_step C cfg td) batches s) = fst s + length batches.
Proof using optimizer_counts.
  revert s. induction batches as [| b batches IH]; intros s.
  - simpl. lia.
  - cbn [fold_left length]. rewrite IH. unfold minibatch_step. cbn [fst].
    rewrite optimizer_counts. lia.
Qed.

Lemma inner_loop_count (td : tensordict T St Act) (dl : DataLoader)
    (perms : nat -> list nat) (c : nat) (ks : list nat) (s : loop_state T nat) :
  (forall k, length (DataLoader_iter dl (perms k)) = c) ->
  fst (fold_left (inner_epoch C cfg td dl perms) ks s) = fst s + length ks * c.
Proof using optimizer_counts.
  intros Hc. revert s. induction ks as [| k ks IH]; intros s.
  - simpl. lia.
  - cbn [fold_left length]. rewrite IH. unfold inner_epoch.
    rewrite fold_minibatch_step_count, Hc. lia.
Qed.

(** X9: the training branch takes one optimizer step per minibatch of
    every pass: with an optimizer that counts its steps, the count grows by
    [ppo_epochs * ceil(n / mini_batch_size)] for a rollout of [n]
    instances. *)
Theorem optimizer_steps_per_training_step (theta : nat)
    (perms : nat -> list nat) (batch : Batch) (mbs : Z) :
  let td := env_reset C batch in
  let out := no_grad (policy_decode C theta "train" td) in
  effective_mini_batch_size cfg (Z.of_nat (length (po_actions out))) = inr mbs ->
  (0 < mbs)%Z ->
  (0 < ppo_epochs cfg)%Z ->
  1 <= length td ->
  (forall k, length (perms k) = length td) ->
  exists res : gmap string (value T Act),
    shared_step C cfg theta perms batch "train"
    = inr (theta + Z.to_nat (ppo_epochs cfg)
                   * ((length td + (Z.to_nat mbs - 1)) / Z.to_nat mbs),
           res).
Proof using optimizer_counts.
  intros td out Hmbs Hpos Hk Htd Hperms.
  assert (Hne : forall k, perms k <> []).
  { intros k Hnil. specialize (Hperms k). rewrite Hnil in Hperms.
    simpl in Hperms. lia. }
  destruct (train_step_runs C cfg theta perms batch mbs Hmbs Hpos Hk Hne)
    as (o & ls & _ & Hstep).
  eexists. rewrite Hstep. do 2 f_equal.
  unfold inner_loop.
  rewrite (inner_loop_count _ _ perms
             ((length td + (Z.to_nat mbs - 1)) / Z.to_nat mbs)).
  - cbn [fst]. now rewrite length_seq.
  - intros k. rewrite DataLoader_iter_length_aux; [reflexivity | |].
    + simpl. lia.
    + simpl. apply Hperms.
Qed.

End StepCount.

(* ===================================================================== *)
(** * Further properties of the losses, over the reals *)
(* ===================================================================== *)

Lemma surrogate_terms_le_unclipped (clip : R) (ratio : list R) :
  forall adv : list R,
  (t_sum (t_map2 sc_min (t_map2 sc_mul ratio adv)
            (t_map2 sc_mul
               (map (fun r => sc_clamp r (1 - clip) (1 + clip)) ratio) adv))
   <= t_sum (t_map2 sc_mul ratio adv))%R
  /\ length (t_map2 sc_min (t_map2 sc_mul ratio adv)
               (t_map2 sc_mul
                  (map (fun r => sc_clamp r (1 - clip) (1 + clip)) ratio) adv))
     = length (t_map2 sc_mul ratio adv).
Proof.
  unfold t_map2.
  induction ratio as [| r ratio IH]; intros [| a adv]; cbn [map zip_with];
    try (split; [apply Rle_refl | reflexivity]).
  destruct (IH adv) as [Hle Hlen]. rewrite !t_sum_cons. cbn [length].
  split; [| now rewrite Hlen].
  real_ops. pose proof (Rmin_l (r * a) (Rclamp r (1 - clip) (1 + clip) * a)).
  lra.
Qed.

(** X12: the surrogate loss is never below the loss without clipping,
    [-mean(ratio * adv)], for every clip range: the minimum of lines 191-199
    can only lower the objective. *)
Theorem surrogate_loss_lower_bound (cfg : ppo_cfg) (ratio adv : list R) :
  (- t_mean (t_map2 sc_mul ratio adv) <= surrogate_loss cfg ratio adv)%R.
Proof.
  unfold surrogate_loss.
  destruct (surrogate_terms_le_unclipped (clip_range cfg) ratio adv)
    as [Hle Hlen].
  rewrite !t_mean_unfold, Hlen. real_ops.
  apply Ropp_le_contravar. apply Rmult_le_compat_r; [| exact Hle].
  generalize (length (t_map2 Rmult ratio adv)). intros [| n].
  - change (INR 0) with 0%R. rewrite Rinv_0. apply Rle_refl.
  - left. apply Rinv_0_lt_compat. apply lt_0_INR. lia.
Qed.

Lemma Rclamp_inside (r lo hi : R) :
  (lo <= r <= hi)%R -> Rclamp r lo hi = r.
Proof.
  intros [Hlo Hhi]. unfold Rclamp, Rmin, Rmax.
  destruct (Rle_dec r lo); destruct (Rle_dec _ hi); lra.
Qed.

(** X13: when every ratio lies within [1 - clip_range, 1 + clip_range], the
    clipping is idle and the surrogate loss is [-mean(ratio * adv)]. *)
Theorem surrogate_loss_inside_clip_range (cfg : ppo_cfg) (ratio adv : list R) :
  Forall (fun r => (1 - clip_range cfg <= r <= 1 + clip_range cfg)%R) ratio ->
  surrogate_loss cfg ratio adv = (- t_mean (t_map2 sc_mul ratio adv))%R.
Proof.
  intros Hin. unfold surrogate_loss. real_ops. do 2 f_equal.
  unfold t_map2. revert adv.
  induction Hin as [| r ratio Hr Hin IH]; intros [| a adv];
    cbn [map zip_with]; try reflexivity.
  rewrite IH. f_equal. real_ops. rewrite Rclamp_inside by exact Hr.
  unfold Rmin. destruct (Rle_dec (r * a) (r * a)); reflexivity.
Qed.

Lemma surrogate_loss_inside_clip_range_witness :
  surrogate_loss default_cfg [1%R; (9 / 10)%R] [2%R; (-1)%R]
  = (- t_mean (t_map2 sc_mul [1%R; (9 / 10)%R] [2%R; (-1)%R]))%R.
Proof.
  apply (surrogate_loss_inside_clip_range default_cfg
           [1%R; (9 / 10)%R] [2%R; (-1)%R]).
  assert (Hclip : clip_range default_cfg = (1 / 5)%R) by reflexivity.
  rewrite Hclip. repeat constructor; lra.
Defined.

Lemma t_sum_shift (c : R) (l : list R) :
  t_sum (map (fun a => (a - c)%R) l) = (t_sum l - INR (length l) * c)%R.
Proof.
  induction l as [| a l IH].
  - unfold t_sum. simpl. lra.
  - cbn [map]. rewrite !t_sum_cons, IH.
    change (length (a :: l)) with (S (length l)). rewrite S_INR. ring.
Qed.

Lemma t_mean_shift (c : R) (l : list R) :
  l <> [] -> t_mean (map (fun a => (a - c)%R) l) = (t_mean l - c)%R.
Proof.
  intros Hne. rewrite !t_mean_unfold, t_sum_shift, length_map.
  assert (INR (length l) <> 0%R).
  { apply not_0_INR. destruct l; [congruence | discriminate]. }
  field. assumption.
Qed.

Lemma t_std_shift (c : R) (l : list R) :
  l <> [] -> t_std (map (fun a => (a - c)%R) l) = t_std l.
Proof.
  intros Hne. unfold t_std. rewrite (t_mean_shift c l Hne), length_map.
  real_ops. rewrite map_map. do 3 f_equal.
  apply map_ext. intros a. ring.
Qed.

Lemma normalize_shift (c : R) (l : list R) :
  normalize (map (fun a => (a - c)%R) l) = normalize l.
Proof.
  destruct l as [| x l]; [reflexivity |].
  unfold normalize. real_ops.
  rewrite t_mean_shift, t_std_shift by discriminate.
  rewrite map_map. apply map_ext. intros a. f_equal. ring.
Qed.

Lemma zip_minus_shift_r (c : R) (reward : list R) :
  forall vp : list R,
  zip_with Rminus reward (map (fun v => (v + c)%R) vp)
  = map (fun a => (a - c)%R) (zip_with Rminus reward vp).
Proof.
  induction reward as [| r reward IH]; intros [| v vp]; cbn [map zip_with];
    try reflexivity.
  rewrite IH. f_equal. ring.
Qed.

(** X14: with [normalize_adv] set, adding one constant to every prediction
    of the critic leaves the advantage of line 188 unchanged. *)
Theorem normalized_advantage_ignores_critic_offset
    (cfg : ppo_cfg) (c : R) (reward value_pred : list R) :
  normalize_adv cfg = true ->
  advantage cfg reward (map (fun v => (v + c)%R) value_pred)
  = advantage cfg reward value_pred.
Proof.
  intros Hnorm. unfold advantage, t_map2. rewrite Hnorm. real_ops.
  rewrite !map_id, zip_minus_shift_r. apply normalize_shift.
Qed.




Lemma t_mean_le (l1 l2 : list R) :
  Forall2 Rle l1 l2 -> (t_mean l1 <= t_mean l2)%R.
Proof.
  intros Hle. rewrite !t_mean_unfold.
  rewrite (Forall2_length _ _ _ Hle).
  apply Rmult_le_compat_r.
  - generalize (length l2). intros [| n].
    + change (INR 0) with 0%R. rewrite Rinv_0. apply Rle_refl.
    + left. apply Rinv_0_lt_compat. apply lt_0_INR. lia.
  - induction Hle as [| x y l1 l2 Hxy Hle IH]; [apply Rle_refl |].
    rewrite !t_sum_cons. lra.
Qed.

Lemma huber_entry_le (x y : R) :
  (huber_entry x y <= Rabs (x - y))%R
  /\ (huber_entry x y <= (x - y) * (x - y) / 2)%R.
Proof.
  rewrite huber_entry_cases.
  pose proof (Rabs_pos (x - y)) as Hpos.
  assert (Hsq : ((x - y) * (x - y) = Rabs (x - y) * Rabs (x - y))%R).
  { unfold Rabs. destruct (Rcase_abs (x - y)); ring. }
  destruct (Rle_dec (Rabs (x - y)) 1) as [Hle | Hgt].
  - split; [| apply Rle_refl]. rewrite Hsq. nra.
  - apply Rnot_le_lt in Hgt. split; [lra |]. rewrite Hsq. nra.
Qed.

(** X15: the value loss of line 202 is at most the mean absolute error of
    the prediction and at most half its mean squared error. *)
Theorem huber_loss_upper_bounds (input target : list R) :
  (huber_loss input target
   <= t_mean (zip_with (fun x y => Rabs (x - y)) input target))%R
  /\ (huber_loss input target
      <= t_mean (zip_with (fun x y => ((x - y) * (x - y) / 2)%R) input target))%R.
Proof.
  unfold huber_loss, t_map2. split; apply t_mean_le.
  - revert target. induction input as [| x input IH]; intros [| y target];
      cbn [zip_with]; constructor; [apply huber_entry_le | apply IH].
  - revert target. induction input as [| x input IH]; intros [| y target];
      cbn [zip_with]; constructor; [apply huber_entry_le | apply IH].
Qed.

Section PerfectCritic.
Context {St Act : Type}.


End PerfectCritic.


(* ===================================================================== *)
(** * Further properties of the losses, with derivatives *)
(* ===================================================================== *)

Lemma Forall_gather {A : Type} (P : A -> Prop) (col : list A) (idxs : list nat) :
  Forall P col -> Forall P (gather col idxs).
Proof.
  intros Hcol. induction idxs as [| i idxs IH]; [constructor |].
  rewrite gather_cons. destruct (col !! i) as [x |] eqn:Hx; [| exact IH].
  constructor; [| exact IH]. exact (Forall_lookup_1 P col i x Hcol Hx).
Qed.

Lemma Forall_detach (l : list dual) :
  Forall (fun x => d_tan x = 0%R) (map sc_detach l).
Proof. induction l; constructor; auto. Qed.

Section Detached.
Context {St Act Batch Params : Type}.
Variable C : collaborators dual St Act Batch Params.
Variable cfg : ppo_cfg.

(** X17: in the training branch, the stored reward and the stored
    log-probabilities of every minibatch, which come from the decoding under
    [torch.no_grad], carry no derivative, and neither does the advantage,
    whatever the policy and the critic are and whatever parameters the
    critic is run with. *)
Theorem rollout_enters_the_loss_detached (theta theta' : Params)
    (batch : Batch) (idxs : list nat) :
  let td := env_reset C batch in
  let out := no_grad (policy_decode C theta "train" td) in
  let sub_td := collate (mk_tensordict td (po_log_likelihood out)
                           (po_reward out) (po_actions out)) idxs in
  Forall (fun x => d_tan x = 0%R) (td_reward sub_td)
  /\ Forall (fun x => d_tan x = 0%R) (td_logprobs sub_td)
  /\ Forall (fun x => d_tan x = 0%R)
            (advantage cfg (td_reward sub_td) (critic C theta' sub_td)).
Proof.
  intros td out sub_td.
  assert (Hr : Forall (fun x => d_tan x = 0%R) (td_reward sub_td)).
  { unfold sub_td, collate. cbn [td_reward]. apply Forall_gather.
    unfold out, no_grad. cbn [po_reward]. apply Forall_detach. }
  split; [exact Hr | split].
  - unfold sub_td, collate. cbn [td_logprobs]. apply Forall_gather.
    unfold out, no_grad. cbn [po_log_likelihood]. apply Forall_detach.
  - now apply advantage_tangent_zero.
Qed.

Lemma ratio_tangent_zero (ll : list (list dual)) (logprobs : list dual) :
  Forall (Forall (fun x => d_tan x = 0%R)) ll ->
  Forall (fun x => d_tan x = 0%R) logprobs ->
  Forall (fun x => d_tan x = 0%R) (ratio ll logprobs).
Proof.
  intros Hll Hlp. unfold ratio.
  apply Forall_map_tangent_zero.
  - intros x Hx. dual_ops. rewrite Hx. ring.
  - apply Forall_zip_tangent_zero; [| | exact Hlp].
    + intros x y Hx Hy. dual_ops. lra.
    + induction Hll as [| l ll Hl Hll IH]; constructor; [| exact IH].
      now apply t_sum_tangent_zero.
Qed.

(** X18: along a direction of the parameters that leaves the output of the
    policy on a minibatch fixed, the surrogate loss has derivative 0 and the
    derivative of the total loss is [vf_lambda] times that of the value
    loss: the critic is trained through the value loss alone. *)
Theorem critic_learns_through_value_loss_only
    (sub_td : tensordict dual St Act) (out : eval_out dual)
    (value_pred : list dual) :
  Forall (fun x => d_tan x = 0%R) (td_reward sub_td) ->
  Forall (fun x => d_tan x = 0%R) (td_logprobs sub_td) ->
  Forall (Forall (fun x => d_tan x = 0%R)) (eo_log_likelihood out) ->
  Forall (fun x => d_tan x = 0%R) (eo_entropy out) ->
  let ls := minibatch_losses cfg sub_td out value_pred in
  d_tan (l_surrogate_loss ls) = 0%R
  /\ d_tan (l_loss ls) = (vf_lambda cfg * d_tan (l_value_loss ls))%R.
Proof.
  intros Hr Hlp Hll Hent ls.
  assert (Hs : d_tan (l_surrogate_loss ls) = 0%R).
  { unfold ls, minibatch_losses. cbn [l_surrogate_loss].
    apply surrogate_loss_tangent_zero.
    - now apply ratio_tangent_zero.
    - now apply advantage_tangent_zero. }
  split; [exact Hs |].
  change (l_loss ls)
    with (total_loss cfg (l_surrogate_loss ls) (l_value_loss ls)
                     (t_mean (eo_entropy out))).
  pose proof (t_mean_tangent_zero _ Hent) as He.
  unfold total_loss. dual_ops. rewrite Hs, He. ring.
Qed.

End Detached.

Lemma Rclamp_above (r lo hi : R) : (hi < r)%R -> Rclamp r lo hi = hi.
Proof.
  intros Hr. unfold Rclamp, Rmin, Rmax.
  destruct (Rle_dec r lo); destruct (Rle_dec _ hi); lra.
Qed.

Lemma Rclamp_below (r lo hi : R) :
  (lo <= hi)%R -> (r < lo)%R -> Rclamp r lo hi = lo.
Proof.
  intros Hb Hr. unfold Rclamp, Rmin, Rmax.
  destruct (Rle_dec r lo); destruct (Rle_dec _ hi); lra.
Qed.

Lemma clipped_term_tangent_zero (clip : R) (r a : dual) :
  (0 <= clip)%R ->
  d_tan a = 0%R ->
  (1 + clip < d_val r /\ 0 < d_val a)%R
  \/ (d_val r < 1 - clip /\ d_val a < 0)%R ->
  d_tan (sc_min (sc_mul r a) (sc_mul (sc_clamp r (1 - clip) (1 + clip)) a))
  = 0%R.
Proof.
  intros Hclip Ha Hcase. dual_ops. unfold dual_min, dual_clamp.
  cbn [d_val d_tan]. rewrite Ha.
  destruct Hcase as [[Hr Hpos] | [Hr Hneg]].
  - rewrite Rclamp_above by exact Hr.
    destruct (Rlt_dec (d_val r * d_val a) ((1 + clip) * d_val a)); [nra |].
    destruct (Rlt_dec ((1 + clip) * d_val a) (d_val r * d_val a)); [| nra].
    destruct (Rle_dec (1 - clip) (d_val r)); [| ring].
    destruct (Rle_dec (d_val r) (1 + clip)); [lra | ring].
  - rewrite Rclamp_below by lra.
    destruct (Rlt_dec (d_val r * d_val a) ((1 - clip) * d_val a)); [nra |].
    destruct (Rlt_dec ((1 - clip) * d_val a) (d_val r * d_val a)); [| nra].
    destruct (Rle_dec (1 - clip) (d_val r)); [lra | ring].
Qed.

(** X19: with a clip range that is not negative, a minibatch in which
    every instance has its ratio above [1 + clip_range] with a positive
    advantage, or below [1 - clip_range] with a negative one, has a
    surrogate loss of derivative 0, whatever the derivatives of the
    ratios: such instances no longer move the policy. *)
Theorem clipped_instances_give_no_policy_gradient
    (cfg : ppo_cfg) (ratio adv : list dual) :
  (0 <= clip_range cfg)%R ->
  Forall2 (fun r a =>
             d_tan a = 0%R
             /\ ((1 + clip_range cfg < d_val r /\ 0 < d_val a)%R
                 \/ (d_val r < 1 - clip_range cfg /\ d_val a < 0)%R))
          ratio adv ->
  d_tan (surrogate_loss cfg ratio adv) = 0%R.
Proof.
  intros Hclip Hall. unfold surrogate_loss.
  assert (Hterms : Forall (fun x => d_tan x = 0%R)
            (t_map2 sc_min (t_map2 sc_mul ratio adv)
               (t_map2 sc_mul
                  (map (fun r => sc_clamp r (1 - clip_range cfg)
                                            (1 + clip_range cfg)) ratio)
                  adv))).
  { unfold t_map2.
    induction Hall as [| r a ratio adv [Ha Hcase] Hall IH];
      cbn [map zip_with]; constructor; [| exact IH].
    now apply clipped_term_tangent_zero. }
  pose proof (t_mean_tangent_zero _ Hterms) as Hm.
  dual_ops. rewrite Hm. ring.
Qed.

Lemma clipped_instances_give_no_policy_gradient_witness :
  d_tan (surrogate_loss default_cfg
           [mk_dual 2 1; mk_dual (1 / 2) 1] [mk_dual 1 0; mk_dual (-1) 0])
  = 0%R.
Proof.
  apply (clipped_instances_give_no_policy_gradient default_cfg
           [mk_dual 2 1; mk_dual (1 / 2) 1] [mk_dual 1 0; mk_dual (-1) 0]).
  - assert (Hclip : clip_range default_cfg = (1 / 5)%R) by reflexivity.
    rewrite Hclip. lra.
  - assert (Hclip : clip_range default_cfg = (1 / 5)%R) by reflexivity.
    rewrite Hclip. cbn [d_val d_tan].
    constructor; [cbn [d_val d_tan]; split; [reflexivity | left; split; lra] |].
    constructor; [cbn [d_val d_tan]; split; [reflexivity | right; split; lra] |].
    constructor.
Defined.

Lemma d_tan_t_sum (l : list dual) : d_tan (t_sum l) = t_sum (map d_tan l).
Proof.
  induction l as [| x l IH]; [reflexivity |].
  change (t_sum (x :: l)) with (sc_add x (t_sum l)). cbn [map].
  rewrite t_sum_cons, <- IH. reflexivity.
Qed.

Lemma d_tan_t_mean (l : list dual) : d_tan (t_mean l) = t_mean (map d_tan l).
Proof.
  rewrite t_mean_unfold, length_map. unfold t_mean. dual_ops.
  rewrite d_tan_t_sum. destruct l as [| x l].
  - unfold t_sum. simpl. unfold Rdiv. ring.
  - assert (INR (length (x :: l)) <> 0%R) by (apply not_0_INR; discriminate).
    field. assumption.
Qed.

Lemma Rabs_t_mean (l : list R) : (Rabs (t_mean l) <= t_mean (map Rabs l))%R.
Proof.
  rewrite !t_mean_unfold, length_map. unfold Rdiv.
  assert (Hn : (0 <= / INR (length l))%R).
  { generalize (length l). intros [| n].
    - change (INR 0) with 0%R. rewrite Rinv_0. apply Rle_refl.
    - left. apply Rinv_0_lt_compat. apply lt_0_INR. lia. }
  rewrite Rabs_mult, (Rabs_pos_eq (/ INR (length l))) by exact Hn.
  apply Rmult_le_compat_r; [exact Hn |]. clear Hn.
  induction l as [| x l IH].
  - unfold t_sum. simpl. rewrite Rabs_R0. apply Rle_refl.
  - cbn [map]. rewrite !t_sum_cons.
    eapply Rle_trans; [apply Rabs_triang |]. lra.
Qed.

Lemma Rsign_bound (x : R) : (Rabs (Rsign x) <= 1)%R.
Proof.
  unfold Rsign. destruct (Rlt_dec 0 x); [rewrite Rabs_R1; lra |].
  destruct (Rlt_dec x 0).
  - unfold Rabs. destruct (Rcase_abs (-1)); lra.
  - rewrite Rabs_R0. lra.
Qed.

Lemma huber_entry_tangent_bound (x y : dual) :
  d_tan y = 0%R ->
  (Rabs (d_tan (huber_entry x y)) <= Rabs (d_tan x))%R.
Proof.
  intros Hy. unfold huber_entry. dual_ops. rewrite Hy.
  destruct (Rle_dec (Rabs (d_val x - d_val y)) 1) as [Hle | Hgt]; cbn [d_tan].
  - replace (0 * ((d_val x - d_val y) * (d_val x - d_val y)) +
             1 / 2 * ((d_tan x - 0) * (d_val x - d_val y) +
                      (d_val x - d_val y) * (d_tan x - 0)))%R
      with ((d_val x - d_val y) * d_tan x)%R by field.
    rewrite Rabs_mult. pose proof (Rabs_pos (d_tan x)). nra.
  - replace (0 * (Rabs (d_val x - d_val y) - 1 / 2 * 1) +
             1 * (Rsign (d_val x - d_val y) * (d_tan x - 0) -
                  (0 * 1 + 1 / 2 * 0)))%R
      with (Rsign (d_val x - d_val y) * d_tan x)%R by field.
    rewrite Rabs_mult.
    pose proof (Rsign_bound (d_val x - d_val y)).
    pose proof (Rabs_pos (d_tan x)).
    pose proof (Rabs_pos (Rsign (d_val x - d_val y))). nra.
Qed.

(** X20: the derivative of the value loss is at most the mean of the
    absolute derivatives of the predictions, however far the predictions
    are from the stored rewards. *)
Theorem value_loss_gradient_is_bounded (value_pred reward : list dual) :
  length value_pred = length reward ->
  Forall (fun x => d_tan x = 0%R) reward ->
  (Rabs (d_tan (huber_loss value_pred reward))
   <= t_mean (map (fun v => Rabs (d_tan v)) value_pred))%R.
Proof.
  intros Hlen Hr. unfold huber_loss. rewrite d_tan_t_mean.
  eapply Rle_trans; [apply Rabs_t_mean |].
  apply t_mean_le. unfold t_map2. revert reward Hlen Hr.
  induction value_pred as [| v vp IH]; intros [| r reward] Hlen Hr;
    try discriminate; cbn [map zip_with]; constructor.
  - apply huber_entry_tangent_bound. now inversion Hr.
  - apply IH; [simpl in Hlen; lia | now inversion Hr].
Qed.

Lemma value_loss_gradient_is_bounded_witness :
  (Rabs (d_tan (huber_loss [mk_dual 0 1; mk_dual 5 1]
                           [mk_dual 100 0; mk_dual 5 0]))
   <= t_mean (map (fun v => Rabs (d_tan v)) [mk_dual 0 1; mk_dual 5 1]))%R.
Proof.
  apply (value_loss_gradient_is_bounded [mk_dual 0 1; mk_dual 5 1]
           [mk_dual 100 0; mk_dual 5 0]).
  - reflexivity.
  - repeat constructor.
Defined.

(* ===================================================================== *)
(** * PPO.on_train_epoch_end over the epochs *)
(* ===================================================================== *)

(** X21: after [n] training epochs a [MultiStepLR] scheduler has been
    stepped [n] times, and a scheduler of another class, or none, is as it
    was. *)
Theorem on_train_epoch_end_iterated {S : Type} (step : S -> S) (n : nat)
    (sch : lr_scheduler S) :
  Nat.iter n (on_train_epoch_end step) sch
  = match sch with
    | MultiStepLR s => MultiStepLR (Nat.iter n step s)
    | _ => sch
    end.
Proof.
  destruct sch as [s | s |]; induction n as [| n IH]; try reflexivity;
    rewrite Nat.iter_succ, IH; reflexivity.
Qed.

(* ===================================================================== *)
(** * The further properties at the small instance *)
(* ===================================================================== *)

Lemma minibatches_cover_rollout_once_witness :
  Permutation (concat (DataLoader_iter (mk_DataLoader 3 2) [2; 0; 1]))
              (seq 0 (dl_len (mk_DataLoader 3 2)))
  /\ NoDup (concat (DataLoader_iter (mk_DataLoader 3 2) [2; 0; 1]))
  /\ Permutation
       (concat (map (gather [10; 20; 30])
                    (DataLoader_iter (mk_DataLoader 3 2) [2; 0; 1])))
       [10; 20; 30]
  /\ Forall (fun batch => 0 < length batch <= dl_batch_size (mk_DataLoader 3 2)
                          /\ length (gather [10; 20; 30] batch) = length batch)
            (DataLoader_iter (mk_DataLoader 3 2) [2; 0; 1]).
Proof.
  apply (minibatches_cover_rollout_once [10; 20; 30] (mk_DataLoader 3 2)
           [2; 0; 1]).
  - simpl. lia.
  - reflexivity.
  - change (seq 0 (dl_len (mk_DataLoader 3 2))) with ([0; 1] ++ 2 :: []).
    apply Permutation_cons_app. reflexivity.
Defined.

Lemma train_step_succeeds_witness :
  exists (theta' : nat) (res : gmap string (value R nat)),
    shared_step count_collaborators one_by_one_cfg 0 (fun _ => [0; 1])
                [1%R; 3%R] "train" = inr (theta', res)
    /\ is_Some (res !! "loss") /\ res !! "loss" <> Some VNone.
Proof.
  apply (train_step_succeeds count_collaborators one_by_one_cfg 0
           (fun _ => [0; 1]) [1%R; 3%R] 1).
  - reflexivity.
  - lia.
  - reflexivity.
  - discriminate.
Defined.


Lemma optimizer_steps_per_training_step_witness :
  exists res : gmap string (value R nat),
    shared_step count_collaborators two_by_two_cfg 0 (fun _ => [2; 0; 3; 1])
                [1%R; 2%R; 3%R; 4%R] "train"
    = inr (0 + Z.to_nat (ppo_epochs two_by_two_cfg)
               * ((length (env_reset count_collaborators
                             [1%R; 2%R; 3%R; 4%R])
                   + (Z.to_nat 2 - 1)) / Z.to_nat 2),
           res).
Proof.
  apply (optimizer_steps_per_training_step count_collaborators two_by_two_cfg
           (fun _ _ _ => eq_refl) 0 (fun _ => [2; 0; 3; 1])
           [1%R; 2%R; 3%R; 4%R] 2).
  - reflexivity.
  - lia.
  - reflexivity.
  - simpl. lia.
  - reflexivity.
Defined.

Lemma no_pass_raises_witness :
  shared_step count_collaborators no_pass_cfg 0 (fun _ => [0; 1])
              [1%R; 3%R] "train" = inl (UnboundLocalError "loss").
Proof.
  apply (no_pass_raises count_collaborators no_pass_cfg 0 (fun _ => [0; 1])
           [1%R; 3%R] 1 (mk_DataLoader 2 1)).
  - simpl. lia.
  - reflexivity.
  - reflexivity.
Defined.

Lemma train_step_reports_last_minibatch_witness :
  exists (s : loop_state R nat) (theta' : nat)
         (res : gmap string (value R nat)),
    let td := env_reset count_collaborators [1%R; 3%R] in
    let out := no_grad (policy_decode count_collaborators 0 "train" td) in
    let td' := mk_tensordict td (po_log_likelihood out) (po_reward out)
                             (po_actions out) in
    let sub_td := collate td' [1] in
    let o := policy_score count_collaborators (fst s) sub_td in
    let ls := minibatch_losses one_by_one_cfg sub_td o
                (critic count_collaborators (fst s) sub_td) in
    shared_step count_collaborators one_by_one_cfg 0 (fun _ => [0; 1])
                [1%R; 3%R] "train" = inr (theta', res)
    /\ res !! "loss" = Some (VScalar (l_loss ls))
    /\ res !! "train/loss" = Some (VScalar (l_loss ls))
    /\ res !! "train/surrogate_loss" = Some (VScalar (l_surrogate_loss ls))
    /\ res !! "train/value_loss" = Some (VScalar (l_value_loss ls))
    /\ res !! "train/entropy" = Some (VScalar (t_mean (eo_entropy o)))
    /\ res !! "train/reward" = Some (VScalar (t_mean (eo_reward o))).
Proof.
  apply (train_step_reports_last_minibatch count_collaborators one_by_one_cfg
           0 (fun _ => [0; 1]) [1%R; 3%R] 1 (mk_DataLoader 2 1) 0 [[0]] [1]);
    reflexivity.
Defined.

Lemma normalized_advantage_ignores_critic_offset_witness :
  advantage normalizing_cfg [1%R; 3%R]
            (map (fun v => (v + 5)%R) [0%R; 1%R])
  = advantage normalizing_cfg [1%R; 3%R] [0%R; 1%R].
Proof.
  apply (normalized_advantage_ignores_critic_offset normalizing_cfg 5
           [1%R; 3%R] [0%R; 1%R]).
  reflexivity.
Defined.

Lemma critic_learns_through_value_loss_only_witness :
  let ls := minibatch_losses default_cfg two_dual_rows two_dual_rows_out
                             [mk_dual 0 1; mk_dual 2 1] in
  d_tan (l_surrogate_loss ls) = 0%R
  /\ d_tan (l_loss ls) = (vf_lambda default_cfg * d_tan (l_value_loss ls))%R.
Proof.
  apply (critic_learns_through_value_loss_only default_cfg two_dual_rows
           two_dual_rows_out [mk_dual 0 1; mk_dual 2 1]);
    repeat constructor.
Defined.
